(** * Egyptian National ID service: decoder, key store, rate limiter, access gate

  A shallow embedding of [app/national_id.py], [app/database.py] and
  [app/security.py], followed by the properties of the rate-limiting and
  usage-accounting core and of the decoder.

  Conventions of the embedding.
  - A Python [str] is a Rocq [string]; each [ascii] stands for the code
    point of the same number (the Latin-1 range, 0..255).
  - Python [int]s are [Z].
  - A reading of [time.monotonic()] is a [Z] number of clock ticks, and
    [window_seconds] is expressed in the same unit; the limiter only
    subtracts and compares readings.
  - [CURRENT_TIMESTAMP] is a text value handed to each store operation.
  - A number stored in the SQLite file is the [Z] of its value: an INTEGER
    when it is in the signed 64-bit range, otherwise the REAL of that
    value, which is what SQLite keeps once an INTEGER sum has overflowed.
  - A function that may raise returns a sum-like result type naming the
    exception; a method that mutates [self] returns the new object. *)

From Stdlib Require Import ZArith NArith Ascii String List Bool Lia.
From stdpp Require Import base option list strings gmap fin_maps.

Local Open Scope string_scope.
Local Open Scope Z_scope.

(* ===================================================================== *)
(** ** app/national_id.py                                                 *)
(* ===================================================================== *)

Module national_id.

(** [datetime.date]: a proleptic Gregorian calendar date. *)
Record date := { year : Z; month : Z; day : Z }.

Record NationalIDDetails := {
  birth_date : date;
  gender : string;
  governorate_code : string;
  governorate_name : string
}.

(** What a call can end in: a value, the module's own
    [NationalIDValidationError] with its message, or the built-in
    [ValueError] that [int()] raises and nothing in the function catches. *)
Inductive raised (A : Type) :=
| Return (a : A)
| NationalIDValidationError (message : string)
| ValueError.
Arguments Return {A} a.
Arguments NationalIDValidationError {A} message.
Arguments ValueError {A}.

Definition bind {A B} (m : raised A) (k : A -> raised B) : raised B :=
  match m with
  | Return a => k a
  | NationalIDValidationError msg => NationalIDValidationError msg
  | ValueError => ValueError
  end.

Notation "'let*' x ':=' m 'in' k" := (bind m (fun x => k))
  (at level 10, x name, m at level 100, k at level 200).

Definition _GOVERNORATE_CODES : gmap string string :=
  list_to_map
    [ ("01", "Cairo"); ("02", "Alexandria"); ("03", "Port Said");
      ("04", "Suez"); ("11", "Damietta"); ("12", "Dakahlia");
      ("13", "Sharkia"); ("14", "Qalyubia"); ("15", "Kafr El Sheikh");
      ("16", "Gharbia"); ("17", "Monufia"); ("18", "Beheira");
      ("19", "Ismailia"); ("21", "Giza"); ("22", "Beni Suef");
      ("23", "Fayoum"); ("24", "Minya"); ("25", "Assiut");
      ("26", "Sohag"); ("27", "Qena"); ("28", "Aswan"); ("29", "Luxor");
      ("31", "Red Sea"); ("32", "New Valley"); ("33", "Matrouh");
      ("34", "North Sinai"); ("35", "South Sinai");
      ("88", "Foreign Residents") ].

(** *** The built-ins the function calls *)

(** [str.isspace] on one character: the characters [str.strip()] removes.
    In the Latin-1 range these are TAB..CR, FS..US, SPACE, NEL and NBSP. *)
Definition isspace (c : ascii) : bool :=
  let n := N_of_ascii c in
  ((9 <=? n) && (n <=? 13) || (28 <=? n) && (n <=? 32)
   || (n =? 133) || (n =? 160))%N.

(** Decimal value of an ASCII digit. *)
Definition decimal_value (c : ascii) : option Z :=
  let n := N_of_ascii c in
  if ((48 <=? n) && (n <=? 57))%N then Some (Z.of_N n - 48) else None.

(** [str.isdigit] on one character: the ASCII digits and, in the Latin-1
    range, the superscripts two, three and one, which are digits for
    [isdigit] but which [int()] refuses. *)
Definition char_isdigit (c : ascii) : bool :=
  let n := N_of_ascii c in
  ((48 <=? n) && (n <=? 57) || (n =? 178) || (n =? 179) || (n =? 185))%N.

Fixpoint all_chars (p : ascii -> bool) (s : string) : bool :=
  match s with
  | EmptyString => true
  | String c s' => p c && all_chars p s'
  end.

(** [str.isdecimal] on one character: the characters [int()] reads. *)
Definition char_isdecimal (c : ascii) : bool :=
  match decimal_value c with Some _ => true | None => false end.

(** [s.isdigit()]: every character is a digit and there is at least one. *)
Definition isdigit (s : string) : bool :=
  match s with
  | EmptyString => false
  | _ => all_chars char_isdigit s
  end.

(** A string made only of characters that [strip] removes. *)
Definition whitespace (s : string) : bool := all_chars isspace s.

Fixpoint lstrip (s : string) : string :=
  match s with
  | EmptyString => EmptyString
  | String c s' => if isspace c then lstrip s' else s
  end.

Fixpoint rstrip (s : string) : string :=
  match s with
  | EmptyString => EmptyString
  | String c s' =>
      match rstrip s' with
      | EmptyString => if isspace c then EmptyString else String c EmptyString
      | r => String c r
      end
  end.

(** [s.strip()] *)
Definition strip (s : string) : string := rstrip (lstrip s).

(** [int(s)] for a string of [isdigit] characters, read left to right;
    [None] stands for the [ValueError] of a character that is no decimal. *)
Fixpoint int_from (acc : Z) (s : string) : option Z :=
  match s with
  | EmptyString => Some acc
  | String c s' =>
      match decimal_value c with
      | Some d => int_from (10 * acc + d) s'
      | None => None
      end
  end.

Definition int (s : string) : raised Z :=
  match s with
  | EmptyString => ValueError
  | _ => match int_from 0 s with
         | Some n => Return n
         | None => ValueError
         end
  end.

(** [s[i:j]] for [0 <= i <= j]. *)
Definition slice (i j : nat) (s : string) : string := substring i (j - i) s.

Definition is_leap (y : Z) : bool :=
  (y mod 4 =? 0) && (negb (y mod 100 =? 0) || (y mod 400 =? 0)).

Definition days_in_month (y m : Z) : Z :=
  if m =? 2 then (if is_leap y then 29 else 28)
  else if (m =? 4) || (m =? 6) || (m =? 9) || (m =? 11) then 30
  else 31.

(** [date(year, month, day)]; [None] stands for its [ValueError]. *)
Definition make_date (y m d : Z) : option date :=
  if (1 <=? y) && (y <=? 9999) && (1 <=? m) && (m <=? 12)
     && (1 <=? d) && (d <=? days_in_month y m)
  then Some {| year := y; month := m; day := d |}
  else None.

Definition century_map (century_digit : string) : option Z :=
  if String.eqb century_digit "2" then Some 1900
  else if String.eqb century_digit "3" then Some 2000
  else None.

(** *** parse_national_id *)

Definition parse_national_id (national_id : string) : raised NationalIDDetails :=
  let stripped := strip national_id in
  if negb (Nat.eqb (String.length stripped) 14) || negb (isdigit stripped) then
    NationalIDValidationError "National ID must be a 14-digit numeric string"
  else
    let century_digit := slice 0 1 stripped in
    match century_map century_digit with
    | None => NationalIDValidationError "Unsupported century digit in National ID"
    | Some century =>
        let* yy := int (slice 1 3 stripped) in
        let year := century + yy in
        let* month := int (slice 3 5 stripped) in
        let* day := int (slice 5 7 stripped) in
        match make_date year month day with
        | None => NationalIDValidationError "Invalid birth date in National ID"
        | Some birth_date =>
            let governorate_code := slice 7 9 stripped in
            match _GOVERNORATE_CODES !! governorate_code with
            | None =>
                NationalIDValidationError "Unknown governorate code in National ID"
            | Some governorate_name =>
                if String.eqb governorate_name EmptyString then
                  NationalIDValidationError "Unknown governorate code in National ID"
                else
                  let* gender_digit := int (slice 12 13 stripped) in
                  let gender :=
                    if negb (gender_digit mod 2 =? 0) then "male" else "female" in
                  Return {| birth_date := birth_date;
                            gender := gender;
                            governorate_code := governorate_code;
                            governorate_name := governorate_name |}
            end
        end
    end.

End national_id.

(* ===================================================================== *)
(** ** app/config.py                                                      *)
(* ===================================================================== *)

Module config.

Record Settings := {
  api_rate_limit_per_minute : Z;
  default_api_keys : list (string * string);
  database_path : string
}.

(** [s.split(sep)] for a one-character separator: the pieces between the
    separators, empty ones included; never an empty list. *)
Fixpoint split (sep : ascii) (s : string) : list string :=
  match s with
  | EmptyString => [EmptyString]
  | String c s' =>
      if Ascii.eqb c sep then EmptyString :: split sep s'
      else match split sep s' with
           | piece :: pieces => String c piece :: pieces
           | [] => [String c EmptyString]
           end
  end.

(** [s.split(sep, 1)] when [sep in s]: what is before the first separator
    and what is after it; [None] when [sep] is not in [s]. *)
Fixpoint split_once (sep : ascii) (s : string) : option (string * string) :=
  match s with
  | EmptyString => None
  | String c s' =>
      if Ascii.eqb c sep then Some (EmptyString, s')
      else match split_once sep s' with
           | Some (before, after) => Some (String c before, after)
           | None => None
           end
  end.

Definition demo_keys : list (string * string) :=
  [("demo-key-123", "Demo account")].

(** The body of the loop of [_parse_default_api_keys] for one item: the
    pair it appends, or [None] where it does [continue]. *)
Definition parse_item (item : string) : option (string * string) :=
  let item := national_id.strip item in
  match item with
  | EmptyString => None
  | _ =>
      match split_once ":" item with
      | Some (key, owner) =>
          Some (national_id.strip key,
                match national_id.strip owner with
                | EmptyString => "default"
                | stripped_owner => stripped_owner
                end)
      | None => Some (item, "default")
      end
  end.

(** [_parse_default_api_keys(value)], [value] being what [os.getenv]
    returned. *)
Definition _parse_default_api_keys (value : option string)
    : list (string * string) :=
  match value with
  | None => demo_keys
  | Some EmptyString => demo_keys
  | Some value =>
      match omap parse_item (split "," value) with
      | [] => demo_keys
      | result => result
      end
  end.

End config.

(* ===================================================================== *)
(** ** app/database.py                                                    *)
(* ===================================================================== *)

Module database.

(** One row of the [api_keys] table, without its primary key [key], which
    is the key of the map holding the rows. *)
Record ApiKeyRow := {
  owner : string;
  rate_limit : Z;
  total_requests : Z;
  created_at : string;
  updated_at : string
}.

(** The SQLite file behind [Database.db_path]: [None] while the table
    [api_keys] has not been created, otherwise its rows by primary key. *)
Definition Database : Type := option (gmap string ApiKeyRow).

(** The exception an SQL statement raises when its table is missing. *)
Inductive sqlite3_result (A : Type) :=
| Done (a : A)
| OperationalError (message : string).
Arguments Done {A} a.
Arguments OperationalError {A} message.

Definition no_such_table {A} : sqlite3_result A :=
  OperationalError "no such table: api_keys".

(** [dict(row)] of [SELECT key, owner, rate_limit, total_requests]; the
    field read with [.get] is optional in the mapping. *)
Record ApiKeyRecord := {
  rec_key : string;
  rec_owner : string;
  rec_rate_limit : option Z;
  rec_total_requests : Z
}.

(** The numbers SQLite holds as INTEGER: the signed 64-bit ones.  A Python
    [int] outside this range cannot be bound to a statement
    ([OverflowError]), and a sum of INTEGERs that leaves the range is
    computed and stored as a REAL. *)
Definition sqlite_integer (n : Z) : bool :=
  (- 2 ^ 63 <=? n) && (n <=? 2 ^ 63 - 1).

(** [total_requests + 1] as SQLite computes it.  An INTEGER gets 1 added,
    which makes the REAL 2^63 out of the INTEGER 2^63 - 1.  A REAL as large
    as that is more than 1 away from its neighbours: the sum is rounded back
    to it, and the number stays as it is. *)
Definition sqlite_add_one (n : Z) : Z :=
  if sqlite_integer n then n + 1 else n.

(** How a call of [initialise] ends: it returns, or binding [rate_limit] to
    the first upsert raises [OverflowError]. *)
Inductive initialise_exit := Returned | OverflowError.

(** [CREATE TABLE IF NOT EXISTS api_keys (...)] *)
Definition create_table_if_not_exists (db : Database) : gmap string ApiKeyRow :=
  match db with
  | Some rows => rows
  | None => ∅
  end.

Definition set_owner (new_owner : string) (r : ApiKeyRow) : ApiKeyRow :=
  {| owner := new_owner;
     rate_limit := rate_limit r;
     total_requests := total_requests r;
     created_at := created_at r;
     updated_at := updated_at r |}.

(** [INSERT INTO api_keys (key, owner, rate_limit) VALUES (?, ?, ?)
     ON CONFLICT(key) DO UPDATE SET owner=excluded.owner]: the columns
    left out of the insert take their defaults. *)
Definition upsert (current_timestamp : string) (limit : Z)
    (rows : gmap string ApiKeyRow) (item : string * string)
    : gmap string ApiKeyRow :=
  let '(key_value, new_owner) := item in
  match rows !! key_value with
  | Some r => <[key_value := set_owner new_owner r]> rows
  | None =>
      <[key_value := {| owner := new_owner;
                        rate_limit := limit;
                        total_requests := 0;
                        created_at := current_timestamp;
                        updated_at := current_timestamp |}]> rows
  end.

(** [conn.execute] of the upsert with the parameters [(key_value, owner,
    rate_limit)]: [None] stands for the [OverflowError] of a [rate_limit]
    that is no SQLite INTEGER, raised when the parameters are bound and so
    before anything is written. *)
Definition execute_upsert (current_timestamp : string) (limit : Z)
    (rows : gmap string ApiKeyRow) (item : string * string)
    : option (gmap string ApiKeyRow) :=
  if sqlite_integer limit then Some (upsert current_timestamp limit rows item)
  else None.

(** The loop of [initialise], left at the first exception. *)
Fixpoint upsert_each (current_timestamp : string) (limit : Z)
    (rows : gmap string ApiKeyRow) (default_keys : list (string * string))
    : option (gmap string ApiKeyRow) :=
  match default_keys with
  | [] => Some rows
  | item :: rest =>
      match execute_upsert current_timestamp limit rows item with
      | Some rows' => upsert_each current_timestamp limit rows' rest
      | None => None
      end
  end.

(** [initialise]: how it ends and the store it leaves.  The table is
    created before the transaction of the upserts begins and stays when the
    [with] block rolls that transaction back on an exception. *)
Definition initialise (default_keys : list (string * string)) (limit : Z)
    (current_timestamp : string) (db : Database)
    : initialise_exit * Database :=
  let table := create_table_if_not_exists db in
  match upsert_each current_timestamp limit table default_keys with
  | Some rows => (Returned, Some rows)
  | None => (OverflowError, Some table)
  end.

Definition get_api_key (key : string) (db : Database)
    : sqlite3_result (option ApiKeyRecord) :=
  match db with
  | None => no_such_table
  | Some rows =>
      Done (match rows !! key with
            | Some r => Some {| rec_key := key;
                                rec_owner := owner r;
                                rec_rate_limit := Some (rate_limit r);
                                rec_total_requests := total_requests r |}
            | None => None
            end)
  end.

Definition bump (current_timestamp : string) (r : ApiKeyRow) : ApiKeyRow :=
  {| owner := owner r;
     rate_limit := rate_limit r;
     total_requests := sqlite_add_one (total_requests r);
     created_at := created_at r;
     updated_at := current_timestamp |}.

(** [UPDATE api_keys SET total_requests = total_requests + 1,
     updated_at = CURRENT_TIMESTAMP WHERE key = ?]: every row whose key
    matches is rewritten, and there is at most one. *)
Definition increment_usage (key : string) (current_timestamp : string)
    (db : Database) : sqlite3_result Database :=
  match db with
  | None => no_such_table
  | Some rows => Done (Some (alter (bump current_timestamp) key rows))
  end.

(** The row stored under a key, when the table and the row exist. *)
Definition row (key : string) (db : Database) : option ApiKeyRow :=
  match db with
  | Some rows => rows !! key
  | None => None
  end.

(** The owners that [default_keys] lists for a key, in order. *)
Definition owners_for (key : string) (default_keys : list (string * string))
    : list string :=
  snd <$> filter (λ item, fst item = key) default_keys.

Definition get_usage (key : string) (db : Database)
    : sqlite3_result (option Z) :=
  match db with
  | None => no_such_table
  | Some rows => Done (total_requests <$> rows !! key)
  end.

(** Not in the source: [increment_usage] called for one key once per
    timestamp of the list, in order, stopping at the first exception. *)
Fixpoint increment_usage_each (key : string) (timestamps : list string)
    (db : Database) : sqlite3_result Database :=
  match timestamps with
  | [] => Done db
  | ts :: rest =>
      match increment_usage key ts db with
      | Done db' => increment_usage_each key rest db'
      | OperationalError message => OperationalError message
      end
  end.

(** *** Calls of [increment_usage] by several threads

    Where a call stands in the body of the method: before [with
    self._lock], with the lock taken, after [conn.execute], after
    [conn.commit()], and after the [with] block, the lock released. *)
Inductive position := Waiting | Locked | Executed | Committed | Finished.

(** A call in progress: its arguments, its position, and the rows as its own
    connection sees them once it has executed the [UPDATE], which no other
    connection sees before the commit. *)
Record call := {
  call_key : string;
  call_timestamp : string;
  at_position : position;
  transaction : gmap string ApiKeyRow
}.

(** The calls in progress, the committed rows of the file, and
    [Database._lock]. *)
Record process := {
  calls : list call;
  file : gmap string ApiKeyRow;
  _lock : bool
}.

Definition move (c : call) (to : position) (view : gmap string ApiKeyRow)
    : call :=
  {| call_key := call_key c; call_timestamp := call_timestamp c;
     at_position := to; transaction := view |}.

(** One step of the call number [i]; [None] when it cannot move: it waits
    for the lock, or it has finished, or there is no such call. *)
Definition step (i : nat) (p : process) : option process :=
  match calls p !! i with
  | None => None
  | Some c =>
      match at_position c with
      | Waiting =>
          if _lock p then None
          else Some {| calls := <[i := move c Locked (transaction c)]> (calls p);
                       file := file p; _lock := true |}
      | Locked =>
          Some {| calls :=
                    <[i := move c Executed
                             (alter (bump (call_timestamp c)) (call_key c) (file p))]>
                      (calls p);
                  file := file p; _lock := _lock p |}
      | Executed =>
          Some {| calls := <[i := move c Committed (transaction c)]> (calls p);
                  file := transaction c; _lock := _lock p |}
      | Committed =>
          Some {| calls := <[i := move c Finished (transaction c)]> (calls p);
                  file := file p; _lock := false |}
      | Finished => None
      end
  end.

(** The steps of a schedule, one call number after the other. *)
Fixpoint run_schedule (schedule : list nat) (p : process) : option process :=
  match schedule with
  | [] => Some p
  | i :: rest =>
      match step i p with
      | Some p' => run_schedule rest p'
      | None => None
      end
  end.

(** Calls that have not started, on a file whose table exists and a free
    lock. *)
Definition start (rows : gmap string ApiKeyRow)
    (arguments : list (string * string)) : process :=
  {| calls := (λ a, {| call_key := a.1; call_timestamp := a.2;
                       at_position := Waiting; transaction := ∅ |}) <$> arguments;
     file := rows; _lock := false |}.

(** How many elements of a list satisfy a test. *)
Fixpoint count_if {A} (P : A -> bool) (l : list A) : nat :=
  match l with
  | [] => 0
  | x :: l' => (if P x then 1 else 0) + count_if P l'
  end.

Definition critical (c : call) : bool :=
  match at_position c with
  | Locked | Executed | Committed => true
  | Waiting | Finished => false
  end.

Definition executed (c : call) : bool :=
  match at_position c with Executed => true | _ => false end.

(** The call is for the key and has committed. *)
Definition committed_for (key : string) (c : call) : bool :=
  bool_decide (call_key c = key)
  && match at_position c with
     | Committed | Finished => true
     | Waiting | Locked | Executed => false
     end.

End database.

(* ===================================================================== *)
(** ** app/security.py                                                    *)
(* ===================================================================== *)

Module security.

Record RateLimitState := { start_time : Z; count : Z }.

Record RateLimiter := {
  window_seconds : Z;
  _state : gmap string RateLimitState
}.

(** How a call of [RateLimiter.check] ends: it returns [None] (the request
    is allowed) or raises [RateLimitExceededError] (it is rejected). *)
Inductive check_result := Allowed | RateLimitExceededError.

Definition set_state (self : RateLimiter) (key : string)
    (st : RateLimitState) : RateLimiter :=
  {| window_seconds := window_seconds self;
     _state := <[key := st]> (_state self) |}.

(** Does a request at [now] find no window for the key, or an expired
    one?  The test of the first [if] of [check]. *)
Definition opens_window (self : RateLimiter) (key : string) (now : Z) : bool :=
  match _state self !! key with
  | None => true
  | Some state => window_seconds self <=? now - start_time state
  end.

Definition check (key : string) (limit : Z) (now : Z) (self : RateLimiter)
    : check_result * RateLimiter :=
  match _state self !! key with
  | None =>
      (Allowed, set_state self key {| start_time := now; count := 1 |})
  | Some state =>
      if window_seconds self <=? now - start_time state then
        (Allowed, set_state self key {| start_time := now; count := 1 |})
      else if limit <=? count state then
        (RateLimitExceededError, self)
      else
        (Allowed,
         set_state self key
           {| start_time := start_time state; count := count state + 1 |})
  end.

(** The process-wide objects the dependency works on: [database],
    [rate_limiter]. *)
Record Globals := {
  the_database : database.Database;
  rate_limiter : RateLimiter
}.

(** How the dependency ends: it returns the record, raises an
    [HTTPException], or lets the store's exception through. *)
Inductive dependency_result :=
| Authorized (record : database.ApiKeyRecord)
| HTTPException (status_code : Z) (detail : string)
| StoreError (message : string).

Definition HTTP_401_UNAUTHORIZED : Z := 401.
Definition HTTP_429_TOO_MANY_REQUESTS : Z := 429.

(** [get_current_api_key(increment_usage=...)] applied to the value of the
    [X-API-Key] header ([None] when the header is absent), at the clock
    reading [now] and the store's [CURRENT_TIMESTAMP]. *)
Definition get_current_api_key (settings : config.Settings)
    (increment_usage : bool) (api_key : option string)
    (now : Z) (current_timestamp : string) (g : Globals)
    : dependency_result * Globals :=
  match api_key with
  | None => (HTTPException HTTP_401_UNAUTHORIZED "Missing API key", g)
  | Some EmptyString => (HTTPException HTTP_401_UNAUTHORIZED "Missing API key", g)
  | Some api_key =>
      match database.get_api_key api_key (the_database g) with
      | database.OperationalError msg => (StoreError msg, g)
      | database.Done None =>
          (HTTPException HTTP_401_UNAUTHORIZED "Invalid API key", g)
      | database.Done (Some record) =>
          let limit :=
            match database.rec_rate_limit record with
            | Some v => v
            | None => config.api_rate_limit_per_minute settings
            end in
          match check api_key limit now (rate_limiter g) with
          | (RateLimitExceededError, limiter') =>
              (HTTPException HTTP_429_TOO_MANY_REQUESTS "Rate limit exceeded",
               {| the_database := the_database g; rate_limiter := limiter' |})
          | (Allowed, limiter') =>
              if increment_usage then
                match database.increment_usage api_key current_timestamp
                        (the_database g) with
                | database.OperationalError msg =>
                    (StoreError msg,
                     {| the_database := the_database g;
                        rate_limiter := limiter' |})
                | database.Done db' =>
                    (Authorized record,
                     {| the_database := db'; rate_limiter := limiter' |})
                end
              else
                (Authorized record,
                 {| the_database := the_database g; rate_limiter := limiter' |})
          end
      end
  end.

(** *** Runs of calls

    What follows is not in the source: it names the arguments of one call of
    [check] and threads one limiter through a sequence of calls, the way the
    process does for the requests it serves in order. *)
Record request := { req_key : string; req_limit : Z; req_now : Z }.

Fixpoint run (reqs : list request) (self : RateLimiter)
    : list (string * check_result) * RateLimiter :=
  match reqs with
  | [] => ([], self)
  | r :: rest =>
      let '(res, self') := check (req_key r) (req_limit r) (req_now r) self in
      let '(out, self'') := run rest self' in
      ((req_key r, res) :: out, self'')
  end.

(** The results the requests of one key got, in order. *)
Definition results_for (key : string) (out : list (string * check_result))
    : list check_result :=
  snd <$> filter (λ p, fst p = key) out.

Definition is_allowed (r : check_result) : bool :=
  match r with Allowed => true | RateLimitExceededError => false end.

Definition allowed_count (l : list check_result) : nat :=
  length (filter (λ r, is_allowed r = true) l).

End security.

(* ===================================================================== *)
(** ** app/main.py                                                        *)
(* ===================================================================== *)

Module main.

(** What a client gets back: the body of a 200 of either endpoint, the 400
    of the inspection, the rendering of an [HTTPException] raised by the
    dependency, or the 500 of an exception nothing handles. *)
Inductive response :=
| NationalIDSuccessResponse (national_id : string)
    (details : national_id.NationalIDDetails)
| ErrorResponse (national_id : string) (error : string)
| UsageResponse (api_key : string) (owner : string) (total_requests : Z)
| HTTPError (status_code : Z) (detail : string)
| InternalServerError.

(** The start-up hook: how [database.initialise] ended, and the process
    state it leaves. *)
Definition initialise_database (settings : config.Settings)
    (current_timestamp : string) (g : security.Globals)
    : database.initialise_exit * security.Globals :=
  let result :=
    database.initialise (config.default_api_keys settings)
      (config.api_rate_limit_per_minute settings) current_timestamp
      (security.the_database g) in
  (result.1,
   {| security.the_database := result.2;
      security.rate_limiter := security.rate_limiter g |}).

(** [POST /v1/national-ids/inspect]: the dependency runs first, with usage
    tracking on, then the body decodes the payload. *)
Definition inspect_national_id (settings : config.Settings)
    (api_key : option string) (payload : string)
    (now : Z) (current_timestamp : string) (g : security.Globals)
    : response * security.Globals :=
  match security.get_current_api_key settings true api_key now
          current_timestamp g with
  | (security.HTTPException status_code detail, g') =>
      (HTTPError status_code detail, g')
  | (security.StoreError _, g') => (InternalServerError, g')
  | (security.Authorized _, g') =>
      (match national_id.parse_national_id payload with
       | national_id.Return details => NationalIDSuccessResponse payload details
       | national_id.NationalIDValidationError message =>
           ErrorResponse payload message
       | national_id.ValueError => InternalServerError
       end, g')
  end.

(** [GET /v1/usage]: the dependency runs without usage tracking, then the
    body reads the counter. *)
Definition get_usage (settings : config.Settings) (api_key : option string)
    (now : Z) (current_timestamp : string) (g : security.Globals)
    : response * security.Globals :=
  match security.get_current_api_key settings false api_key now
          current_timestamp g with
  | (security.HTTPException status_code detail, g') =>
      (HTTPError status_code detail, g')
  | (security.StoreError _, g') => (InternalServerError, g')
  | (security.Authorized record, g') =>
      match database.get_usage (database.rec_key record)
              (security.the_database g') with
      | database.OperationalError _ => (InternalServerError, g')
      | database.Done total_requests =>
          (UsageResponse (database.rec_key record) (database.rec_owner record)
             (match total_requests with Some n => n | None => 0 end), g')
      end
  end.

(** Not in the source: inspections by one key served one after the other,
    each with its payload, its clock reading and its timestamp; the state of
    the process after the last one. *)
Definition after_inspections (settings : config.Settings) (key : string)
    (calls : list (string * Z * string)) (g : security.Globals)
    : security.Globals :=
  foldl (λ acc call,
           (inspect_national_id settings (Some key)
              call.1.1 call.1.2 call.2 acc).2) g calls.

End main.

(* ===================================================================== *)
(** ** The decoder                                                        *)
(* ===================================================================== *)

Section decoder.
Import national_id.

(** A tab followed by a line feed. *)
Local Abbreviation tab_newline := (String "009" (String "010" EmptyString)).

Lemma append_cons c (l r : string) : String c l +:+ r = String c (l +:+ r).
Proof. reflexivity. Qed.

Lemma append_empty (r : string) : EmptyString +:+ r = r.
Proof. reflexivity. Qed.

Ltac step_chars :=
  unfold whitespace in *;
  rewrite ?append_cons, ?append_empty in *;
  cbn [all_chars lstrip rstrip] in *.

Lemma lstrip_whitespace s : whitespace s = true -> lstrip s = EmptyString.
Proof.
  induction s as [|c s IH]; step_chars; [reflexivity|].
  intros [Hc Hs]%andb_true_iff. rewrite Hc. now apply IH.
Qed.

Lemma rstrip_whitespace s : whitespace s = true -> rstrip s = EmptyString.
Proof.
  induction s as [|c s IH]; step_chars; [reflexivity|].
  intros [Hc Hs]%andb_true_iff. rewrite (IH Hs), Hc. reflexivity.
Qed.

Lemma whitespace_app l r :
  whitespace l = true -> whitespace r = true -> whitespace (l +:+ r) = true.
Proof.
  intros Hl Hr. induction l as [|c l IH]; step_chars; [exact Hr|].
  apply andb_true_iff in Hl as [Hc Hl]. rewrite Hc. now apply IH.
Qed.

Lemma lstrip_app_left l s : whitespace l = true -> lstrip (l +:+ s) = lstrip s.
Proof.
  induction l as [|c l IH]; step_chars; [reflexivity|].
  intros [Hc Hl]%andb_true_iff. rewrite Hc. now apply IH.
Qed.

Lemma rstrip_app_right s r : whitespace r = true -> rstrip (s +:+ r) = rstrip s.
Proof.
  intros Hr. induction s as [|c s IH]; step_chars.
  - now apply rstrip_whitespace.
  - now rewrite IH.
Qed.

(** Left-stripping a string followed by whitespace: either the string was
    all whitespace and nothing is left, or the padding stays at the end. *)
Lemma lstrip_app_right s r :
  whitespace r = true ->
  (lstrip s = EmptyString /\ lstrip (s +:+ r) = EmptyString) \/ lstrip (s +:+ r) = lstrip s +:+ r.
Proof.
  intros Hr. induction s as [|c s IH]; rewrite ?append_cons, ?append_empty; cbn [lstrip].
  - left. split; [reflexivity|]. now apply lstrip_whitespace.
  - destruct (isspace c); [exact IH|]. right. reflexivity.
Qed.

Lemma strip_padding l s r :
  whitespace l = true -> whitespace r = true ->
  strip (l +:+ s +:+ r) = strip s.
Proof.
  intros Hl Hr. unfold strip. rewrite (lstrip_app_left _ _ Hl).
  destruct (lstrip_app_right s r Hr) as [[-> ->]| ->]; [reflexivity|].
  now apply rstrip_app_right.
Qed.

(** C8. Decoding the national ID ["30101012100013"] succeeds: the birth
    date is 2001-01-01, the governorate code is ["21"], which names Giza,
    and the gender is ["male"]. *)
Theorem parse_national_id_30101012100013 :
  parse_national_id "30101012100013" =
  Return {| birth_date := {| year := 2001; month := 1; day := 1 |};
            gender := "male";
            governorate_code := "21";
            governorate_name := "Giza" |}.
Proof. vm_compute. reflexivity. Qed.

(** C9. [parse_national_id] strips leading and trailing whitespace before
    it validates: whatever whitespace [l] and [r] are put around a string
    [s], the padded string gets the result of [s] itself, be it the
    decoded details or the error. *)
Theorem parse_national_id_padding (l s r : string) :
  whitespace l = true -> whitespace r = true ->
  parse_national_id (l +:+ s +:+ r) = parse_national_id s.
Proof.
  intros Hl Hr. unfold parse_national_id.
  rewrite (strip_padding l s r Hl Hr). reflexivity.
Qed.

(** The 14-digit ID of the service's own test, surrounded by spaces, a tab
    and a line end, is accepted with the details of the bare ID. *)
Lemma parse_national_id_padding_witness :
  whitespace "  " = true /\ whitespace tab_newline = true /\
  parse_national_id ("  " +:+ "30101012100013" +:+ tab_newline)
  = Return {| birth_date := {| year := 2001; month := 1; day := 1 |};
              gender := "male";
              governorate_code := "21";
              governorate_name := "Giza" |}.
Proof.
  split; [reflexivity|]. split; [reflexivity|].
  rewrite (parse_national_id_padding "  " "30101012100013"
             tab_newline); [|reflexivity|reflexivity].
  vm_compute. reflexivity.
Defined.

End decoder.

(* ===================================================================== *)
(** ** The rate limiter                                                   *)
(* ===================================================================== *)

Section limiter.
Import security.

Implicit Types (self : RateLimiter) (key : string) (st : RateLimitState).
Implicit Types (reqs : list request) (limit now : Z).

(** The requests of [reqs] that are for [key]. *)
Local Abbreviation for_key key reqs := (filter (λ r, req_key r = key) reqs).

(** Every request for [key] in [reqs] asks with a limit satisfying [P] and
    arrives before the window started at [t0] is over. *)
Local Abbreviation in_window self key t0 P reqs :=
  (Forall (λ r, req_key r = key ->
                P (req_limit r) /\ req_now r - t0 < window_seconds self) reqs).

Lemma check_window_seconds key limit now self :
  window_seconds (check key limit now self).2 = window_seconds self.
Proof.
  unfold check. destruct (_state self !! key) as [st|]; [|reflexivity].
  repeat case_match; reflexivity.
Qed.

Lemma check_other_key key key' limit now self :
  key <> key' ->
  _state (check key limit now self).2 !! key' = _state self !! key'.
Proof.
  intros Hne. unfold check. destruct (_state self !! key) as [st|];
    repeat case_match; cbn; rewrite ?lookup_insert_ne by done; reflexivity.
Qed.

Lemma check_opens key limit now self :
  opens_window self key now = true ->
  check key limit now self
  = (Allowed, set_state self key {| start_time := now; count := 1 |}).
Proof.
  unfold opens_window, check. destruct (_state self !! key) as [st|];
    [intros ->|]; reflexivity.
Qed.

Lemma check_inside key limit now self st :
  _state self !! key = Some st ->
  now - start_time st < window_seconds self ->
  check key limit now self
  = if limit <=? count st then (RateLimitExceededError, self)
    else (Allowed,
          set_state self key
            {| start_time := start_time st; count := count st + 1 |}).
Proof.
  intros Hst Hnow. unfold check. rewrite Hst.
  destruct (Z.leb_spec (window_seconds self) (now - start_time st)); [lia|].
  reflexivity.
Qed.

Lemma run_cons r reqs self :
  run (r :: reqs) self
  = ((req_key r, (check (req_key r) (req_limit r) (req_now r) self).1)
       :: (run reqs (check (req_key r) (req_limit r) (req_now r) self).2).1,
     (run reqs (check (req_key r) (req_limit r) (req_now r) self).2).2).
Proof.
  cbn [run]. destruct (check _ _ _ self) as [res self']. cbn [fst snd].
  destruct (run reqs self') as [out self'']. reflexivity.
Qed.

Lemma results_for_cons_eq key res out :
  results_for key ((key, res) :: out) = res :: results_for key out.
Proof. unfold results_for. rewrite filter_cons_True by done. reflexivity. Qed.

Lemma results_for_cons_ne key key' res out :
  key' <> key ->
  results_for key ((key', res) :: out) = results_for key out.
Proof. intros. unfold results_for. rewrite filter_cons_False by done. reflexivity. Qed.

Lemma allowed_count_app l1 l2 :
  allowed_count (l1 ++ l2)%list = (allowed_count l1 + allowed_count l2)%nat.
Proof. unfold allowed_count. rewrite filter_app, length_app. reflexivity. Qed.

Lemma allowed_count_allowed n : allowed_count (replicate n Allowed) = n.
Proof.
  unfold allowed_count. induction n as [|n IH]; [reflexivity|].
  cbn [replicate]. rewrite filter_cons_True by done. cbn. now rewrite IH.
Qed.

Lemma allowed_count_rejected n :
  allowed_count (replicate n RateLimitExceededError) = 0%nat.
Proof.
  unfold allowed_count. induction n as [|n IH]; [reflexivity|].
  cbn [replicate]. rewrite filter_cons_False by done. exact IH.
Qed.

(** Inside a window the limiter admits requests for the key until the
    count has reached the limit and rejects every later one; requests for
    other keys, interleaved in any way, do not matter. *)
Lemma run_within_window reqs : forall self key st L,
  _state self !! key = Some st ->
  in_window self key (start_time st) (λ l, l = L) reqs ->
  let n := length (for_key key reqs) in
  let a := Nat.min n (Z.to_nat (L - count st)) in
  results_for key (run reqs self).1
  = (replicate a Allowed ++ replicate (n - a) RateLimitExceededError)%list.
Proof.
  induction reqs as [|r reqs IH]; intros self key st L Hst Hin; [reflexivity|].
  apply Forall_cons in Hin as [Hr Hin]. rewrite run_cons. cbn [fst].
  destruct (decide (req_key r = key)) as [Hk|Hk].
  - destruct (Hr Hk) as [HL Hnow]. rewrite filter_cons_True by done.
    rewrite Hk, HL, results_for_cons_eq, (check_inside _ _ _ _ st Hst Hnow).
    cbn [length]. destruct (Z.leb_spec L (count st)) as [Hle|Hlt]; cbn [fst snd].
    + rewrite (IH self key st L Hst Hin).
      replace (Z.to_nat (L - count st)) with 0%nat by lia.
      rewrite !Nat.min_0_r. cbn [replicate app]. rewrite !Nat.sub_0_r.
      reflexivity.
    + set (st' := {| start_time := start_time st; count := count st + 1 |}).
      rewrite (IH (set_state self key st') key st' L).
      * cbn [start_time count st'].
        replace (Z.to_nat (L - count st)) with (S (Z.to_nat (L - (count st + 1))))
          by lia.
        rewrite <- Nat.succ_min_distr. reflexivity.
      * cbn. apply lookup_insert_eq.
      * exact Hin.
  - rewrite filter_cons_False by done.
    rewrite results_for_cons_ne by done.
    apply (IH _ key st L).
    + rewrite check_other_key by done. exact Hst.
    + rewrite check_window_seconds. exact Hin.
Qed.

(** Once the count has reached every limit that is asked with, all the
    requests for the key inside the window are rejected. *)
Lemma run_exhausted reqs : forall self key st,
  _state self !! key = Some st ->
  in_window self key (start_time st) (λ l, l <= count st) reqs ->
  results_for key (run reqs self).1
  = replicate (length (for_key key reqs)) RateLimitExceededError.
Proof.
  induction reqs as [|r reqs IH]; intros self key st Hst Hin; [reflexivity|].
  apply Forall_cons in Hin as [Hr Hin]. rewrite run_cons. cbn [fst].
  destruct (decide (req_key r = key)) as [Hk|Hk].
  - destruct (Hr Hk) as [HL Hnow]. rewrite filter_cons_True by done.
    rewrite Hk, results_for_cons_eq, (check_inside _ _ _ _ st Hst Hnow).
    destruct (Z.leb_spec (req_limit r) (count st)); [|lia]. cbn [fst snd length replicate].
    now rewrite (IH self key st Hst Hin).
  - rewrite filter_cons_False by done.
    rewrite results_for_cons_ne by done.
    apply (IH _ key st).
    + rewrite check_other_key by done. exact Hst.
    + rewrite check_window_seconds. exact Hin.
Qed.

(** The limiter and the three requests of the service's rate-limit test:
    a window of 60, no state yet, limit 2. *)
Local Abbreviation fresh := {| window_seconds := 60; _state := ∅ |}.
Local Abbreviation ask k l t := {| req_key := k; req_limit := l; req_now := t |}.

(** C1, as amended. For a key whose limit [L] is at least 1: take a
    request at [t0] that opens a window for the key, followed by any
    requests, for this key or others, of which those for the key arrive
    inside that window (elapsed time since [t0] below [window_seconds]).
    Then at most [L] of the key's requests in the window are allowed, the
    first [L] of them are, and the [(L+1)]th, when there is one, is
    rejected. *)
Theorem check_at_most_limit_per_window self key L t0 reqs :
  1 <= L ->
  opens_window self key t0 = true ->
  in_window self key t0 (λ l, l = L) reqs ->
  let results := results_for key (run (ask key L t0 :: reqs) self).1 in
  (allowed_count results <= Z.to_nat L)%nat
  /\ (forall res, results !! Z.to_nat L = Some res -> res = RateLimitExceededError)
  /\ (forall i res, (i < Z.to_nat L)%nat -> results !! i = Some res -> res = Allowed).
Proof.
  intros HL Hopen Hin results. subst results.
  rewrite run_cons. cbn [req_key req_limit req_now fst].
  rewrite results_for_cons_eq, (check_opens _ _ _ _ Hopen). cbn [fst snd].
  set (st := {| start_time := t0; count := 1 |}).
  rewrite (run_within_window reqs (set_state self key st) key st L);
    [|cbn; apply lookup_insert_eq|exact Hin].
  cbn [count st]. set (n := length (for_key key reqs)).
  set (a := Nat.min n (Z.to_nat (L - 1))).
  assert (Ha : (S a <= Z.to_nat L)%nat) by lia.
  change (Allowed :: replicate a Allowed ++ replicate (n - a) RateLimitExceededError)%list
    with (replicate (S a) Allowed ++ replicate (n - a) RateLimitExceededError)%list.
  split; [|split].
  - rewrite allowed_count_app, allowed_count_allowed, allowed_count_rejected. lia.
  - intros res Hres.
    apply lookup_app_Some in Hres as [Hres|[_ Hres]].
    + apply lookup_replicate in Hres as [_ Hlt]. lia.
    + now apply lookup_replicate in Hres as [-> _].
  - intros i res Hi Hres.
    apply lookup_app_Some in Hres as [Hres|[Hge Hres]].
    + now apply lookup_replicate in Hres as [-> _].
    + rewrite length_replicate in Hge, Hres.
      apply lookup_replicate in Hres as [_ Hlt]. lia.
Qed.

(** The rate-limit test of the service: limit 2, three requests in one
    window. *)
Lemma check_at_most_limit_per_window_witness :
  let results :=
    results_for "rate-key"
      (run [ask "rate-key" 2 0; ask "rate-key" 2 1; ask "rate-key" 2 2] fresh).1 in
  (allowed_count results <= 2)%nat
  /\ (forall res, results !! 2%nat = Some res -> res = RateLimitExceededError)
  /\ (forall i res, (i < 2)%nat -> results !! i = Some res -> res = Allowed).
Proof.
  apply (check_at_most_limit_per_window fresh "rate-key" 2 0
           [ask "rate-key" 2 1; ask "rate-key" 2 2]).
  - lia.
  - reflexivity.
  - repeat (apply Forall_cons; split); try (apply Forall_nil; exact I);
      cbn; intros Hk; try discriminate Hk; split; lia.
Defined.

(** C1 as it is written fails for a limit of 0: the request that opens
    the window is allowed, so one request, not at most zero, is allowed
    in that window, and the [(0+1)]th request is not rejected. *)
Lemma check_at_most_limit_per_window_limit_0 :
  let results := results_for "rate-key" (run [ask "rate-key" 0 0] fresh).1 in
  opens_window fresh "rate-key" 0 = true
  /\ in_window fresh "rate-key" 0 (λ l, l = 0) []
  /\ results = [Allowed]
  /\ ~ (allowed_count results <= Z.to_nat 0)%nat
  /\ ~ (forall res, results !! Z.to_nat 0 = Some res -> res = RateLimitExceededError).
Proof.
  assert (Heq : results_for "rate-key" (run [ask "rate-key" 0 0] fresh).1 = [Allowed])
    by (vm_compute; reflexivity).
  cbv zeta. rewrite Heq.
  split; [reflexivity|]. split; [constructor|]. split; [reflexivity|].
  split.
  - change (allowed_count [Allowed]) with 1%nat. lia.
  - intros H. specialize (H Allowed eq_refl). discriminate H.
Qed.

(** C6. A request that arrives exactly at the window boundary, when the
    time elapsed since [start_time] equals [window_seconds], is allowed
    and starts a fresh window at [now] with count 1, whatever the count of
    the old window and whatever the limit. *)
Theorem check_at_boundary self key limit now st :
  _state self !! key = Some st ->
  now - start_time st = window_seconds self ->
  check key limit now self
  = (Allowed, set_state self key {| start_time := now; count := 1 |})
  /\ _state (check key limit now self).2 !! key
     = Some {| start_time := now; count := 1 |}.
Proof.
  intros Hst Hnow.
  assert (Hopen : opens_window self key now = true).
  { unfold opens_window. rewrite Hst. apply Z.leb_le. lia. }
  rewrite (check_opens _ limit _ _ Hopen). split; [reflexivity|].
  cbn. apply lookup_insert_eq.
Qed.

(** A window opened at 100 whose count has reached the limit 2; the next
    request arrives at 160. *)
Lemma check_at_boundary_witness :
  let self := {| window_seconds := 60;
                 _state := {[ "rate-key" := {| start_time := 100; count := 2 |} ]} |} in
  check "rate-key" 2 160 self
  = (Allowed, set_state self "rate-key" {| start_time := 160; count := 1 |})
  /\ _state (check "rate-key" 2 160 self).2 !! "rate-key"
     = Some {| start_time := 160; count := 1 |}.
Proof.
  apply (check_at_boundary _ "rate-key" 2 160 {| start_time := 100; count := 2 |}).
  - vm_compute. reflexivity.
  - reflexivity.
Defined.

(** C7. When [check] rejects a request, the limiter is left as it was:
    the state of the key, its [start_time] and [count], and that of every
    other key. *)
Theorem check_rejected_unchanged self key limit now self' :
  check key limit now self = (RateLimitExceededError, self') ->
  self' = self.
Proof.
  unfold check. destruct (_state self !! key) as [st|]; [|discriminate].
  repeat case_match; intros [= <-]; reflexivity.
Qed.

(** A window opened at 100 whose count has reached the limit 2; the next
    request arrives at 130, inside the window. *)
Lemma check_rejected_unchanged_witness :
  let self := {| window_seconds := 60;
                 _state := {[ "rate-key" := {| start_time := 100; count := 2 |} ]} |} in
  (check "rate-key" 2 130 self).1 = RateLimitExceededError
  /\ (check "rate-key" 2 130 self).2 = self.
Proof.
  cbv zeta. split; [vm_compute; reflexivity|].
  apply (check_rejected_unchanged _ "rate-key" 2 130).
  vm_compute. reflexivity.
Defined.

(** C10. With a limit of 0 or below and no window for the key, the
    request is allowed all the same and opens a window with count 1; the
    requests for the key that follow inside that window, asked with a
    limit of 0 or below, are all rejected. *)
Theorem check_nonpositive_limit self key limit now reqs :
  _state self !! key = None ->
  limit <= 0 ->
  in_window self key now (λ l, l <= 0) reqs ->
  check key limit now self
  = (Allowed, set_state self key {| start_time := now; count := 1 |})
  /\ results_for key (run reqs (check key limit now self).2).1
     = replicate (length (for_key key reqs)) RateLimitExceededError.
Proof.
  intros Hst Hlimit Hin.
  assert (Hopen : opens_window self key now = true)
    by (unfold opens_window; now rewrite Hst).
  rewrite (check_opens _ limit _ _ Hopen). split; [reflexivity|]. cbn [snd].
  apply (run_exhausted reqs _ key {| start_time := now; count := 1 |}).
  - cbn. apply lookup_insert_eq.
  - cbn [start_time count]. eapply Forall_impl; [exact Hin|].
    cbn. intros r Hr Hk. specialize (Hr Hk). lia.
Qed.

Lemma check_nonpositive_limit_witness :
  check "rate-key" 0 0 fresh
  = (Allowed, set_state fresh "rate-key" {| start_time := 0; count := 1 |})
  /\ results_for "rate-key"
       (run [ask "rate-key" 0 1; ask "test-key" 0 2; ask "rate-key" 0 59]
            (check "rate-key" 0 0 fresh).2).1
     = [RateLimitExceededError; RateLimitExceededError].
Proof.
  apply (check_nonpositive_limit fresh "rate-key" 0 0
           [ask "rate-key" 0 1; ask "test-key" 0 2; ask "rate-key" 0 59]).
  - reflexivity.
  - lia.
  - repeat (apply Forall_cons; split); try (apply Forall_nil; exact I);
      cbn; intros Hk; try discriminate Hk; split; lia.
Defined.

End limiter.

(* ===================================================================== *)
(** ** The key store                                                      *)
(* ===================================================================== *)

Section store.
Import database.

Implicit Types (rows : gmap string ApiKeyRow) (r : ApiKeyRow).
Implicit Types (key ts : string) (default_keys : list (string * string)).

Lemma set_owner_set_owner a b r : set_owner a (set_owner b r) = set_owner a r.
Proof. reflexivity. Qed.

Lemma set_owner_same r : set_owner (owner r) r = r.
Proof. now destruct r. Qed.

Lemma upsert_lookup_same ts limit rows key o r :
  rows !! key = Some r ->
  upsert ts limit rows (key, o) !! key = Some (set_owner o r).
Proof. intros Hr. cbn. rewrite Hr. apply lookup_insert_eq. Qed.

Lemma upsert_lookup_other ts limit rows key item :
  item.1 <> key ->
  upsert ts limit rows item !! key = rows !! key.
Proof.
  destruct item as [k o]. cbn. intros Hne.
  destruct (rows !! k); now rewrite lookup_insert_ne.
Qed.

(** A row that is there before the loop of [initialise] is there after
    it, with the owner the last matching default gives it and nothing
    else changed. *)
Lemma foldl_upsert_existing ts limit default_keys : forall rows key r,
  rows !! key = Some r ->
  foldl (upsert ts limit) rows default_keys !! key
  = Some (set_owner (default (owner r) (last (owners_for key default_keys))) r).
Proof.
  induction default_keys as [|[k o] d IH]; intros rows key r Hr.
  - cbn. now rewrite set_owner_same.
  - cbn [foldl]. unfold owners_for. destruct (decide (k = key)) as [->|Hne].
    + rewrite filter_cons_True by done.
      rewrite (IH _ key (set_owner o r)) by now apply upsert_lookup_same.
      rewrite set_owner_set_owner. cbn [fmap list_fmap snd].
      rewrite last_cons. fold (owners_for key d).
      now destruct (last (owners_for key d)).
    + rewrite filter_cons_False by done.
      apply IH. now rewrite upsert_lookup_other.
Qed.

(** [initialise] goes through when [rate_limit] is an SQLite INTEGER or
    there is nothing to insert; otherwise it raises at the first upsert and
    leaves the table without having written a row. *)
Lemma upsert_each_spec ts limit default_keys : forall rows,
  upsert_each ts limit rows default_keys
  = if sqlite_integer limit || bool_decide (default_keys = [])
    then Some (foldl (upsert ts limit) rows default_keys)
    else None.
Proof.
  induction default_keys as [|item d IH]; intros rows.
  - cbn. now rewrite orb_true_r.
  - cbn [upsert_each foldl]. unfold execute_upsert.
    rewrite bool_decide_eq_false_2 by discriminate. rewrite orb_false_r.
    destruct (sqlite_integer limit) eqn:Hlimit; [|reflexivity].
    rewrite IH, ?Hlimit. reflexivity.
Qed.

Lemma initialise_spec default_keys limit ts db :
  initialise default_keys limit ts db
  = if sqlite_integer limit || bool_decide (default_keys = [])
    then (Returned,
          Some (foldl (upsert ts limit) (create_table_if_not_exists db) default_keys))
    else (OverflowError, Some (create_table_if_not_exists db)).
Proof.
  unfold initialise. rewrite upsert_each_spec.
  now destruct (sqlite_integer limit || bool_decide (default_keys = [])).
Qed.

(** [initialise] leaves a store whose table exists, whatever it started
    from and however it ends. *)
Lemma initialise_creates_table default_keys limit ts db :
  exists rows, (initialise default_keys limit ts db).2 = Some rows.
Proof. rewrite initialise_spec. case_match; cbn; eauto. Qed.

(** A row that is there when [initialise] starts is there when it ends,
    however it ends: with the owner replaced when the call returned, and
    untouched when it raised. *)
Lemma initialise_existing default_keys limit ts rows key r :
  rows !! key = Some r ->
  row key (initialise default_keys limit ts (Some rows)).2
  = Some (set_owner
            (if (initialise default_keys limit ts (Some rows)).1 is Returned
             then default (owner r) (last (owners_for key default_keys))
             else owner r) r).
Proof.
  intros Hr. rewrite initialise_spec.
  destruct (sqlite_integer limit || bool_decide (default_keys = []));
    cbn [fst snd row create_table_if_not_exists].
  - now apply foldl_upsert_existing.
  - now rewrite set_owner_same.
Qed.

(** C2. When [initialise] runs and a key is already in the store, its
    row keeps [rate_limit], [total_requests] and both timestamps; only
    [owner] is set, to the owner the defaults give the key (it stays as it
    was for a key the defaults do not list).  That is so however the call
    ends: it returns whenever the limit is an SQLite INTEGER, and a call
    that raises [OverflowError] has not touched the row at all.  Running
    [initialise] a second time with the same defaults leaves the usage
    count where it was and so never resets it to 0. *)
Theorem initialise_updates_only_owner default_keys limit ts limit' ts' rows key r :
  rows !! key = Some r ->
  let new_owner := default (owner r) (last (owners_for key default_keys)) in
  let once := initialise default_keys limit ts (Some rows) in
  let twice := initialise default_keys limit' ts' once.2 in
  row key once.2
  = Some {| owner := if once.1 is Returned then new_owner else owner r;
            rate_limit := rate_limit r;
            total_requests := total_requests r;
            created_at := created_at r;
            updated_at := updated_at r |}
  /\ (sqlite_integer limit = true -> once.1 = Returned)
  /\ get_usage key once.2 = Done (Some (total_requests r))
  /\ (exists o,
        row key twice.2
        = Some {| owner := o;
                  rate_limit := rate_limit r;
                  total_requests := total_requests r;
                  created_at := created_at r;
                  updated_at := updated_at r |})
  /\ get_usage key twice.2 = Done (Some (total_requests r)).
Proof.
  intros Hr new_owner once twice.
  pose proof (initialise_existing default_keys limit ts rows key r Hr) as Honce.
  fold once in Honce. fold new_owner in Honce.
  set (o1 := if once.1 is Returned then new_owner else owner r) in *.
  destruct (initialise_creates_table default_keys limit ts (Some rows))
    as [rows1 Hrows1].
  fold once in Hrows1.
  assert (Hr1 : rows1 !! key = Some (set_owner o1 r))
    by (rewrite Hrows1 in Honce; exact Honce).
  pose proof (initialise_existing default_keys limit' ts' rows1 key _ Hr1) as Htwice.
  rewrite <- Hrows1 in Htwice. fold twice in Htwice.
  rewrite set_owner_set_owner in Htwice.
  destruct (initialise_creates_table default_keys limit' ts' once.2)
    as [rows2 Hrows2].
  fold twice in Hrows2.
  split; [exact Honce|]. split.
  { intros Hlimit. unfold once. rewrite initialise_spec, Hlimit. reflexivity. }
  split.
  { rewrite Hrows1 in *. cbn in *. now rewrite Honce. }
  split.
  { eexists. exact Htwice. }
  rewrite Hrows2 in *. cbn in *. now rewrite Htwice.
Qed.

(** The test configuration: the key ["test-key"] has served 2 requests
    when the service starts again with the same defaults. *)
Lemma initialise_updates_only_owner_witness :
  let defaults := [("test-key", "Test User"); ("rate-key", "Rate User")] in
  let r := {| owner := "Old name"; rate_limit := 5; total_requests := 2;
              created_at := "2024-01-01 00:00:00";
              updated_at := "2024-01-02 00:00:00" |} in
  let once := initialise defaults 2 "2024-02-01 00:00:00" (Some {[ "test-key" := r ]}) in
  let twice := initialise defaults 2 "2024-03-01 00:00:00" once.2 in
  once.1 = Returned
  /\ row "test-key" once.2
     = Some {| owner := "Test User"; rate_limit := 5; total_requests := 2;
               created_at := "2024-01-01 00:00:00";
               updated_at := "2024-01-02 00:00:00" |}
  /\ get_usage "test-key" once.2 = Done (Some 2)
  /\ get_usage "test-key" twice.2 = Done (Some 2).
Proof.
  cbv zeta.
  assert (Hr : ({[ "test-key" := {| owner := "Old name"; rate_limit := 5;
                                    total_requests := 2;
                                    created_at := "2024-01-01 00:00:00";
                                    updated_at := "2024-01-02 00:00:00" |} ]}
                : gmap string ApiKeyRow) !! "test-key"
               = Some {| owner := "Old name"; rate_limit := 5; total_requests := 2;
                         created_at := "2024-01-01 00:00:00";
                         updated_at := "2024-01-02 00:00:00" |})
    by (vm_compute; reflexivity).
  pose proof (initialise_updates_only_owner
                [("test-key", "Test User"); ("rate-key", "Rate User")]
                2 "2024-02-01 00:00:00" 2 "2024-03-01 00:00:00" _ _ _ Hr)
    as (Hrow & Hret & Hone & _ & Htwo).
  cbv zeta in *. specialize (Hret eq_refl).
  split; [exact Hret|]. split; [|split; [exact Hone|exact Htwo]].
  rewrite Hrow, Hret. reflexivity.
Defined.

Lemma alter_bump_lookup ts key rows :
  alter (bump ts) key rows
  = match rows !! key with
    | Some r => <[key := bump ts r]> rows
    | None => rows
    end.
Proof.
  apply map_eq. intros k. rewrite lookup_alter.
  destruct (decide (key = k)) as [<-|Hne].
  - destruct (rows !! key) as [r|] eqn:Hr.
    + now rewrite lookup_insert_eq.
    + now rewrite Hr.
  - destruct (rows !! key); [now rewrite lookup_insert_ne|reflexivity].
Qed.

(** [increment_usage] keeps the table. *)
Lemma increment_usage_keeps_table key ts rows :
  exists rows', increment_usage key ts (Some rows) = Done (Some rows').
Proof. cbn. eauto. Qed.

Lemma sqlite_add_one_integer n :
  sqlite_integer n = true -> sqlite_add_one n = n + 1.
Proof. intros H. unfold sqlite_add_one. now rewrite H. Qed.

Lemma sqlite_integer_range n :
  sqlite_integer n = true <-> - 2 ^ 63 <= n <= 2 ^ 63 - 1.
Proof.
  unfold sqlite_integer. rewrite andb_true_iff, !Z.leb_le. reflexivity.
Qed.

(** Adding 1 again and again adds up as long as the INTEGER range is not
    left behind. *)
Lemma iter_sqlite_add_one n : forall t,
  - 2 ^ 63 <= t -> t + Z.of_nat n <= 2 ^ 63 ->
  Nat.iter n sqlite_add_one t = t + Z.of_nat n.
Proof.
  induction n as [|n IH]; intros t Hlow Hhigh; [cbn; lia|].
  change (Nat.iter (S n) sqlite_add_one t)
    with (sqlite_add_one (Nat.iter n sqlite_add_one t)).
  rewrite IH by lia.
  rewrite sqlite_add_one_integer by (apply sqlite_integer_range; lia). lia.
Qed.

(** *** Calls by several threads *)

Lemma count_insert {A} (P : A -> bool) (l : list A) : forall i x y,
  l !! i = Some x ->
  (count_if P (<[i:=y]> l) + (if P x then 1 else 0)
   = count_if P l + (if P y then 1 else 0))%nat.
Proof.
  induction l as [|z l IH]; intros [|i] x y H; try discriminate H.
  - injection H as ->. cbn. destruct (P x), (P y); lia.
  - cbn in H. specialize (IH i x y H).
    change (<[S i:=y]> (z :: l)) with (z :: <[i:=y]> l). cbn [count_if].
    destruct (P x), (P y), (P z); lia.
Qed.

Lemma count_pos {A} (P : A -> bool) (l : list A) : forall i x,
  l !! i = Some x -> P x = true -> (1 <= count_if P l)%nat.
Proof.
  induction l as [|z l IH]; intros [|i] x H Hx; try discriminate H.
  - injection H as ->. cbn. rewrite Hx. lia.
  - cbn in H. specialize (IH i x H Hx). cbn. destruct (P z); lia.
Qed.

Lemma count_le {A} (P Q : A -> bool) (l : list A) :
  (forall x, P x = true -> Q x = true) -> (count_if P l <= count_if Q l)%nat.
Proof.
  intros HPQ. induction l as [|z l IH]; [reflexivity|]. cbn.
  destruct (P z) eqn:Hz; [rewrite (HPQ z Hz)|]; destruct (Q z); lia.
Qed.

Lemma count_zero {A} (P : A -> bool) (l : list A) :
  count_if P l = 0%nat -> Forall (λ x, P x = false) l.
Proof.
  induction l as [|z l IH]; [constructor|]. cbn.
  destruct (P z) eqn:Hz; [discriminate|]. intros H. constructor; auto.
Qed.

(** What holds of the calls, the file and the lock at every moment: the
    lock is held by exactly the one call that is inside the [with] block, if
    any; a call that has executed its [UPDATE] and not committed yet sees
    the committed rows with its own row rewritten; the rows of the file are
    those of the beginning with the count raised once per committed call;
    and the calls are those that were started. *)
Local Abbreviation consistent rows0 arguments p :=
  (count_if critical (calls p) = (if _lock p then 1 else 0)%nat
   /\ Forall (λ c, at_position c = Executed ->
                   transaction c
                   = alter (bump (call_timestamp c)) (call_key c) (file p))
        (calls p)
   /\ (forall k,
         match rows0 !! k with
         | Some r =>
             exists r', file p !! k = Some r'
                        /\ owner r' = owner r /\ rate_limit r' = rate_limit r
                        /\ created_at r' = created_at r
                        /\ total_requests r'
                           = Nat.iter (count_if (committed_for k) (calls p))
                               sqlite_add_one (total_requests r)
         | None => file p !! k = None
         end)
   /\ (λ c, (call_key c, call_timestamp c)) <$> calls p = arguments).

Lemma consistent_start rows (arguments : list (string * string)) :
  consistent rows arguments (start rows arguments).
Proof.
  unfold start. cbn [calls file _lock].
  assert (Hall : Forall (λ c, at_position c = Waiting)
                   ((λ a : string * string,
                       {| call_key := a.1; call_timestamp := a.2;
                          at_position := Waiting; transaction := ∅ |})
                      <$> arguments)).
  { induction arguments; constructor; auto. }
  set (cs := _ <$> arguments) in *.
  assert (Hcount : forall P : call -> bool,
             (forall c, at_position c = Waiting -> P c = false) ->
             count_if P cs = 0%nat).
  { intros P HP. induction Hall as [|c l Hc _ IH]; [reflexivity|].
    cbn. now rewrite (HP c Hc), IH. }
  split; [|split; [|split]].
  - apply Hcount. intros c Hc. unfold critical. now rewrite Hc.
  - eapply Forall_impl; [exact Hall|]. cbn. congruence.
  - intros k. rewrite Hcount.
    + destruct (rows !! k) as [r|]; [|reflexivity]. exists r. auto.
    + intros c Hc. unfold committed_for. rewrite Hc. apply andb_false_r.
  - subst cs. rewrite <- list_fmap_compose.
    rewrite <- (list_fmap_id arguments) at 2. apply list_fmap_ext.
    now intros _ [a b] _.
Qed.

(** A step that moves one call and leaves the file alone keeps the rows
    and their counts, provided the call is committed after the step exactly
    if it was before. *)
Lemma consistent_rows_moved (rows0 : gmap string ApiKeyRow) (cs : list call)
    (file0 : gmap string ApiKeyRow) i c c' :
  cs !! i = Some c ->
  (forall k, committed_for k c' = committed_for k c) ->
  (forall k,
     match rows0 !! k with
     | Some r =>
         exists r', file0 !! k = Some r'
                    /\ owner r' = owner r /\ rate_limit r' = rate_limit r
                    /\ created_at r' = created_at r
                    /\ total_requests r'
                       = Nat.iter (count_if (committed_for k) cs)
                           sqlite_add_one (total_requests r)
     | None => file0 !! k = None
     end) ->
  forall k,
    match rows0 !! k with
    | Some r =>
        exists r', file0 !! k = Some r'
                   /\ owner r' = owner r /\ rate_limit r' = rate_limit r
                   /\ created_at r' = created_at r
                   /\ total_requests r'
                      = Nat.iter (count_if (committed_for k) (<[i:=c']> cs))
                          sqlite_add_one (total_requests r)
    | None => file0 !! k = None
    end.
Proof.
  intros Hi Hsame Hrows k. specialize (Hrows k).
  pose proof (count_insert (committed_for k) cs i c c' Hi) as Hcount.
  rewrite Hsame in Hcount.
  replace (count_if (committed_for k) (<[i:=c']> cs))
    with (count_if (committed_for k) cs) by (destruct (committed_for k c); lia).
  exact Hrows.
Qed.

Lemma consistent_arguments (cs : list call) i c to view :
  cs !! i = Some c ->
  (λ c, (call_key c, call_timestamp c)) <$> <[i := move c to view]> cs
  = (λ c, (call_key c, call_timestamp c)) <$> cs.
Proof.
  intros Hi. rewrite list_fmap_insert. apply list_insert_id.
  rewrite list_lookup_fmap, Hi. reflexivity.
Qed.

Lemma consistent_step rows0 arguments i p p' :
  consistent rows0 arguments p -> step i p = Some p' ->
  consistent rows0 arguments p'.
Proof.
  intros (Hlock & Hview & Hrows & Hargs). unfold step.
  destruct (calls p !! i) as [c|] eqn:Hi; [|discriminate].
  pose proof (count_insert critical (calls p) i c) as Hcrit.
  assert (Hwas : critical c = match at_position c with
                              | Locked | Executed | Committed => true
                              | Waiting | Finished => false
                              end) by reflexivity.
  destruct (at_position c) eqn:Hat.
  - (* the lock is taken *)
    destruct (_lock p) eqn:Hl; [discriminate|]. intros [= <-].
    rewrite ?Hl in Hlock.
    cbn [calls file _lock].
    specialize (Hcrit (move c Locked (transaction c)) Hi).
    rewrite Hwas in Hcrit.
    change (critical (move c Locked (transaction c))) with true in Hcrit.
    split; [destruct (_lock p); cbn in Hcrit; lia|]. split; [|split].
    + apply Forall_insert; [exact Hview|]. cbn. discriminate.
    + apply (consistent_rows_moved _ _ _ _ c); [exact Hi| |exact Hrows].
      intros k. unfold committed_for. cbn [move at_position call_key].
      now rewrite Hat.
    + rewrite consistent_arguments by exact Hi. exact Hargs.
  - (* the UPDATE is executed *)
    intros [= <-]. cbn [calls file _lock].
    specialize (Hcrit (move c Executed
                         (alter (bump (call_timestamp c)) (call_key c) (file p))) Hi).
    rewrite Hwas in Hcrit.
    change (critical (move c Executed
                        (alter (bump (call_timestamp c)) (call_key c) (file p))))
      with true in Hcrit.
    split; [destruct (_lock p); cbn in Hcrit; lia|]. split; [|split].
    + apply Forall_insert; [exact Hview|]. cbn. reflexivity.
    + apply (consistent_rows_moved _ _ _ _ c); [exact Hi| |exact Hrows].
      intros k. unfold committed_for. cbn [move at_position call_key].
      now rewrite Hat.
    + rewrite consistent_arguments by exact Hi. exact Hargs.
  - (* the transaction is committed *)
    intros [= <-]. cbn [calls file _lock].
    specialize (Hcrit (move c Committed (transaction c)) Hi).
    rewrite Hwas in Hcrit.
    change (critical (move c Committed (transaction c))) with true in Hcrit.
    rewrite Forall_lookup in Hview.
    pose proof (Hview i c Hi Hat) as Hmine.
    split; [destruct (_lock p); cbn in Hcrit; lia|]. split; [|split].
    + (* no call is between its UPDATE and its commit any more *)
      pose proof (count_insert executed (calls p) i c
                    (move c Committed (transaction c)) Hi) as Hexec.
      replace (executed c) with true in Hexec
        by (unfold executed; now rewrite Hat).
      change (executed (move c Committed (transaction c))) with false in Hexec.
      pose proof (count_le executed critical (calls p)) as Hle.
      assert (Hnone : count_if executed
                        (<[i:=move c Committed (transaction c)]> (calls p)) = 0%nat).
      { assert (count_if executed (calls p) <= count_if critical (calls p))%nat.
        { apply Hle. intros x. unfold executed, critical.
          now destruct (at_position x). }
        cbn in Hexec. destruct (_lock p); lia. }
      apply count_zero in Hnone.
      eapply Forall_impl; [exact Hnone|]. cbn. intros x Hx Hx'.
      unfold executed in Hx. now rewrite Hx' in Hx.
    + intros k. specialize (Hrows k).
      pose proof (count_insert (committed_for k) (calls p) i c
                    (move c Committed (transaction c)) Hi) as Hcount.
      replace (committed_for k c) with false in Hcount
        by (unfold committed_for; now rewrite Hat, andb_false_r).
      replace (committed_for k (move c Committed (transaction c)))
        with (bool_decide (call_key c = k)) in Hcount
        by (unfold committed_for; cbn; now rewrite andb_true_r).
      assert (Hn : count_if (committed_for k)
                     (<[i:=move c Committed (transaction c)]> (calls p))
                   = (count_if (committed_for k) (calls p)
                      + (if bool_decide (call_key c = k) then 1 else 0))%nat)
        by (cbn in Hcount; lia).
      rewrite Hn, Hmine, lookup_alter.
      destruct (decide (call_key c = k)) as [<-|Hk].
      * rewrite bool_decide_eq_true_2 by reflexivity. rewrite Nat.add_1_r.
        destruct (rows0 !! call_key c) as [r|].
        -- destruct Hrows as (r' & Hr' & Ho & Hl & Hc & Ht).
           rewrite Hr'. exists (bump (call_timestamp c) r').
           split; [reflexivity|]. cbn [bump owner rate_limit created_at total_requests].
           rewrite Ht. auto.
        -- now rewrite Hrows.
      * rewrite bool_decide_eq_false_2 by exact Hk. rewrite Nat.add_0_r.
        exact Hrows.
    + rewrite consistent_arguments by exact Hi. exact Hargs.
  - (* the lock is released *)
    intros [= <-]. cbn [calls file _lock].
    specialize (Hcrit (move c Finished (transaction c)) Hi).
    rewrite Hwas in Hcrit.
    change (critical (move c Finished (transaction c))) with false in Hcrit.
    pose proof (count_pos critical (calls p) i c Hi Hwas) as Hpos.
    split; [destruct (_lock p); cbn in Hcrit; lia|]. split; [|split].
    + apply Forall_insert; [exact Hview|]. cbn. discriminate.
    + apply (consistent_rows_moved _ _ _ _ c); [exact Hi| |exact Hrows].
      intros k. unfold committed_for. cbn [move at_position call_key].
      now rewrite Hat.
    + rewrite consistent_arguments by exact Hi. exact Hargs.
  - discriminate.
Qed.

Lemma consistent_run rows0 arguments schedule : forall p p',
  consistent rows0 arguments p -> run_schedule schedule p = Some p' ->
  consistent rows0 arguments p'.
Proof.
  induction schedule as [|i rest IH]; intros p p' Hp; cbn [run_schedule].
  - now intros [= <-].
  - destruct (step i p) as [p1|] eqn:Hstep; [|discriminate].
    apply IH. exact (consistent_step _ _ _ _ _ Hp Hstep).
Qed.

(** When every call has finished, the committed calls for a key are the
    calls that were made for it. *)
Lemma count_committed_finished key (cs : list call) :
  Forall (λ c, at_position c = Finished) cs ->
  count_if (committed_for key) cs
  = length (filter (λ a : string * string, a.1 = key)
              ((λ c, (call_key c, call_timestamp c)) <$> cs)).
Proof.
  induction 1 as [|c cs Hc _ IH]; [reflexivity|].
  cbn [count_if fmap list_fmap]. unfold committed_for at 1. rewrite Hc, andb_true_r.
  destruct (decide (call_key c = key)) as [Hk|Hk].
  - rewrite bool_decide_eq_true_2 by exact Hk.
    rewrite filter_cons_True by exact Hk. cbn [length]. now rewrite IH.
  - rewrite bool_decide_eq_false_2 by exact Hk.
    rewrite filter_cons_False by exact Hk. exact IH.
Qed.

(** C4. On a store whose table exists, as it does once [initialise] has
    run, [increment_usage] does not raise.  For a key whose row holds an
    SQLite INTEGER as its count it adds exactly 1 to [total_requests] and
    sets [updated_at] to the current timestamp, in the one [UPDATE]
    statement, and touches no other column; for a key without a row it
    leaves the store as it is.  Either way no other row changes, and
    [get_usage] reports the old count plus 1 for a key that has a row and
    still no count for one that has none.

    The call is atomic.  Let any number of threads call [increment_usage],
    for any keys, their steps interleaved in any order the lock allows.  At
    every moment each committed row is the row of the beginning with its
    count raised once per call that has committed for its key, never a row
    half written and never a call lost; when all calls have finished that is
    once per call made for the key; and as long as the counts stay SQLite
    INTEGERs, raising a count once is adding 1. *)
Theorem increment_usage_adds_one key ts rows :
  (forall r, rows !! key = Some r -> sqlite_integer (total_requests r) = true) ->
  let rows' :=
    match rows !! key with
    | Some r =>
        <[key := {| owner := owner r;
                    rate_limit := rate_limit r;
                    total_requests := total_requests r + 1;
                    created_at := created_at r;
                    updated_at := ts |}]> rows
    | None => rows
    end in
  increment_usage key ts (Some rows) = Done (Some rows')
  /\ (forall k, k <> key -> rows' !! k = rows !! k)
  /\ get_usage key (Some rows')
     = Done ((λ r, total_requests r + 1) <$> rows !! key)
  /\ forall arguments schedule p k r,
       run_schedule schedule (start rows arguments) = Some p ->
       rows !! k = Some r ->
       let committed := count_if (committed_for k) (calls p) in
       exists r',
         file p !! k = Some r'
         /\ owner r' = owner r /\ rate_limit r' = rate_limit r
         /\ created_at r' = created_at r
         /\ total_requests r' = Nat.iter committed sqlite_add_one (total_requests r)
         /\ (- 2 ^ 63 <= total_requests r ->
             total_requests r + Z.of_nat committed <= 2 ^ 63 ->
             total_requests r' = total_requests r + Z.of_nat committed)
         /\ (Forall (λ c, at_position c = Finished) (calls p) ->
             _lock p = false
             /\ committed = length (filter (λ a, a.1 = k) arguments)).
Proof.
  intros Hrange rows'. split; [|split; [|split]].
  - cbn. rewrite alter_bump_lookup. subst rows'.
    destruct (rows !! key) as [r|] eqn:Hr; [|reflexivity].
    unfold bump. now rewrite (sqlite_add_one_integer _ (Hrange r eq_refl)).
  - intros k Hk. subst rows'.
    destruct (rows !! key); [now rewrite lookup_insert_ne|reflexivity].
  - subst rows'. cbn. destruct (rows !! key) as [r|] eqn:Hr.
    + now rewrite lookup_insert_eq.
    + now rewrite Hr.
  - intros arguments schedule p k r Hrun Hr committed.
    destruct (consistent_run rows arguments schedule _ p
                (consistent_start rows arguments) Hrun)
      as (Hlock & _ & Hrows & Hargs).
    specialize (Hrows k). rewrite Hr in Hrows.
    destruct Hrows as (r' & Hr' & Ho & Hl & Hc & Ht).
    exists r'. repeat (split; [assumption|]). split.
    + intros Hlow Hhigh. rewrite Ht. now apply iter_sqlite_add_one.
    + intros Hfinished. split.
      * assert (Hnone : count_if critical (calls p) = 0%nat).
        { clear -Hfinished. induction Hfinished as [|c cs Hc _ IH]; [reflexivity|].
          cbn. unfold critical at 1. now rewrite Hc, IH. }
        rewrite Hnone in Hlock. now destruct (_lock p).
      * subst committed. rewrite (count_committed_finished k _ Hfinished).
        now rewrite Hargs.
Qed.

(** A row with 5 requests; then two threads that count a request each, the
    second one running first. *)
Lemma increment_usage_adds_one_witness :
  let r := {| owner := "Test User"; rate_limit := 2; total_requests := 5;
              created_at := "2024-01-01 00:00:00";
              updated_at := "2024-01-01 00:00:00" |} in
  let rows : gmap string ApiKeyRow := {[ "test-key" := r ]} in
  increment_usage "test-key" "2024-01-02 00:00:00" (Some rows)
  = Done (Some (<[ "test-key" :=
                     {| owner := "Test User"; rate_limit := 2;
                        total_requests := 5 + 1;
                        created_at := "2024-01-01 00:00:00";
                        updated_at := "2024-01-02 00:00:00" |} ]> rows))
  /\ exists p,
       run_schedule [1; 1; 1; 1; 0; 0; 0; 0]%nat
         (start rows [("test-key", "2024-01-02 00:00:00");
                      ("test-key", "2024-01-02 00:00:01")]) = Some p
       /\ total_requests <$> file p !! "test-key" = Some (5 + 2)
       /\ run_schedule [1; 0]%nat
            (start rows [("test-key", "2024-01-02 00:00:00");
                         ("test-key", "2024-01-02 00:00:01")]) = None.
Proof.
  cbv zeta.
  assert (Hr : forall r,
             ({[ "test-key" := {| owner := "Test User"; rate_limit := 2;
                                  total_requests := 5;
                                  created_at := "2024-01-01 00:00:00";
                                  updated_at := "2024-01-01 00:00:00" |} ]}
              : gmap string ApiKeyRow) !! "test-key" = Some r ->
             sqlite_integer (total_requests r) = true).
  { intros r Hr. vm_compute in Hr. injection Hr as <-. reflexivity. }
  destruct (increment_usage_adds_one "test-key" "2024-01-02 00:00:00" _ Hr)
    as (Hcall & _ & _ & Hthreads).
  split.
  - rewrite Hcall. vm_compute. reflexivity.
  - eexists. split; [vm_compute; reflexivity|]. split; vm_compute; reflexivity.
Defined.

End store.

(* ===================================================================== *)
(** ** The access gate                                                    *)
(* ===================================================================== *)

Section gate.
Import config database security.

Implicit Types (settings : Settings) (g : Globals) (key ts : string).

(** The settings and the process state of the service's tests, after
    start-up. *)
Local Abbreviation test_settings :=
  {| api_rate_limit_per_minute := 2;
     default_api_keys := [("test-key", "Test User"); ("rate-key", "Rate User")];
     database_path := "data/app.db" |}.
Local Abbreviation started :=
  {| the_database :=
       (initialise (default_api_keys test_settings)
          (api_rate_limit_per_minute test_settings) "2024-01-01 00:00:00" None).2;
     rate_limiter := {| window_seconds := 60; _state := ∅ |} |}.

Implicit Types (rows : gmap string ApiKeyRow) (r : ApiKeyRow).

Lemma globals_eta g :
  {| the_database := the_database g; rate_limiter := rate_limiter g |} = g.
Proof. now destruct g. Qed.

Lemma check_rejected_same key limit now self :
  (check key limit now self).1 = RateLimitExceededError ->
  (check key limit now self).2 = self.
Proof.
  unfold check. destruct (_state self !! key) as [st|]; [|discriminate].
  repeat case_match; cbn; (discriminate || reflexivity).
Qed.

(** The dependency on a key that has a row: the limiter is asked with the
    row's limit, and the answer decides. *)
Lemma get_current_api_key_known settings increment key now ts g rows r :
  key <> EmptyString ->
  the_database g = Some rows ->
  rows !! key = Some r ->
  get_current_api_key settings increment (Some key) now ts g
  = let record := {| rec_key := key; rec_owner := owner r;
                     rec_rate_limit := Some (rate_limit r);
                     rec_total_requests := total_requests r |} in
    let limiter' := (check key (rate_limit r) now (rate_limiter g)).2 in
    match (check key (rate_limit r) now (rate_limiter g)).1 with
    | RateLimitExceededError =>
        (HTTPException 429 "Rate limit exceeded",
         {| the_database := Some rows; rate_limiter := limiter' |})
    | Allowed =>
        (Authorized record,
         {| the_database :=
              if increment then Some (alter (bump ts) key rows) else Some rows;
            rate_limiter := limiter' |})
    end.
Proof.
  intros Hne Hdb Hr. unfold get_current_api_key.
  destruct key as [|c s]; [done|].
  rewrite Hdb. cbn [get_api_key]. rewrite Hr. cbn [rec_rate_limit].
  destruct (check _ _ _ _) as [[] limiter']; cbn [fst snd]; [|reflexivity].
  now destruct increment.
Qed.

(** C3. For a request that presents a key with a row, the limiter's
    check decides.  When it allows the request, the dependency returns the
    record and, with usage tracking on, the store is the old one with exactly
    1 added to the [total_requests] of that key (an SQLite INTEGER) and its
    [updated_at] refreshed, every other row being as before; with usage
    tracking off the store is unchanged.  When the limiter rejects the
    request, the answer is the 429 and the store is unchanged.  A request
    that fails authentication, with no key, an empty key or a key without a
    row, is answered with a 401 and leaves the store unchanged. *)
Theorem total_requests_incremented_once settings increment key now ts g rows r :
  key <> EmptyString ->
  the_database g = Some rows ->
  rows !! key = Some r ->
  sqlite_integer (total_requests r) = true ->
  let result := get_current_api_key settings increment (Some key) now ts g in
  match (check key (rate_limit r) now (rate_limiter g)).1 with
  | Allowed =>
      result.1 = Authorized {| rec_key := key; rec_owner := owner r;
                               rec_rate_limit := Some (rate_limit r);
                               rec_total_requests := total_requests r |}
      /\ the_database result.2
         = (if increment
            then Some (<[key := {| owner := owner r;
                                   rate_limit := rate_limit r;
                                   total_requests := total_requests r + 1;
                                   created_at := created_at r;
                                   updated_at := ts |}]> rows)
            else Some rows)
      /\ database.get_usage key (the_database result.2)
         = Done (Some (total_requests r + (if increment then 1 else 0)))
  | RateLimitExceededError =>
      result.1 = HTTPException 429 "Rate limit exceeded"
      /\ the_database result.2 = Some rows
  end
  /\ (forall k, k <> key -> row k (the_database result.2) = row k (the_database g))
  /\ forall api_key,
       api_key = None \/ api_key = Some EmptyString
       \/ (exists k, api_key = Some k /\ rows !! k = None) ->
       let failed := get_current_api_key settings increment api_key now ts g in
       (exists detail, failed.1 = HTTPException 401 detail)
       /\ the_database failed.2 = the_database g.
Proof.
  intros Hne Hdb Hr Hrange result. subst result.
  rewrite (get_current_api_key_known _ _ _ _ _ _ rows r Hne Hdb Hr). cbv zeta.
  split; [|split].
  - destruct (check key (rate_limit r) now (rate_limiter g)).1; cbn [fst snd the_database].
    + split; [reflexivity|].
      destruct increment; [|split; [reflexivity|]].
      * rewrite alter_bump_lookup, Hr. unfold bump.
        rewrite (sqlite_add_one_integer _ Hrange).
        split; [reflexivity|]. cbn. now rewrite lookup_insert_eq.
      * cbn. rewrite Hr. cbn. now rewrite Z.add_0_r.
    + split; reflexivity.
  - intros k Hk. rewrite Hdb.
    destruct (check key (rate_limit r) now (rate_limiter g)).1;
      cbn [fst snd the_database row]; [|reflexivity].
    destruct increment; [|reflexivity].
    cbn [row]. rewrite lookup_alter, decide_False by done. reflexivity.
  - intros api_key [->|[->|(k & -> & Hk)]].
    + split; [eexists|]; reflexivity.
    + split; [eexists|]; reflexivity.
    + unfold get_current_api_key. destruct k as [|c s].
      * split; [eexists|]; reflexivity.
      * rewrite Hdb. cbn [get_api_key]. rewrite Hk. cbn.
        split; [eexists; reflexivity|exact Hdb].
Qed.

(** The started service of the tests: the first inspection by
    ["test-key"] is counted. *)
Lemma total_requests_incremented_once_witness :
  let result :=
    get_current_api_key test_settings true (Some "test-key") 0
      "2024-01-01 00:00:01" started in
  result.1 = Authorized {| rec_key := "test-key"; rec_owner := "Test User";
                           rec_rate_limit := Some 2; rec_total_requests := 0 |}
  /\ database.get_usage "test-key" (the_database result.2) = Done (Some (0 + 1))
  /\ database.get_usage "rate-key" (the_database result.2) = Done (Some 0).
Proof.
  cbv zeta.
  assert (Hr : foldl (upsert "2024-01-01 00:00:00" 2) ∅
                 [("test-key", "Test User"); ("rate-key", "Rate User")]
               !! "test-key"
               = Some {| owner := "Test User"; rate_limit := 2; total_requests := 0;
                         created_at := "2024-01-01 00:00:00";
                         updated_at := "2024-01-01 00:00:00" |})
    by (vm_compute; reflexivity).
  pose proof (total_requests_incremented_once test_settings true "test-key" 0
                "2024-01-01 00:00:01" started _ _
                ltac:(discriminate) eq_refl Hr eq_refl) as (Hallowed & _ & _).
  cbv zeta in Hallowed.
  change (check "test-key" 2 0 {| window_seconds := 60; _state := ∅ |}).1
    with Allowed in Hallowed.
  destruct Hallowed as (Hresult & _ & Husage).
  split; [exact Hresult|]. split; [exact Husage|].
  vm_compute. reflexivity.
Defined.

(** C5, as amended. A request without the header or with an empty key and
    a request with a key the store does not know both end in an
    [HTTPException] with status 401 and leave the store and the limiter as
    they were; the detail of the first is ["Missing API key"], that of the
    second ["Invalid API key"]. *)
Theorem missing_and_unknown_key_are_401 settings increment now ts g rows key :
  the_database g = Some rows ->
  rows !! key = None ->
  key <> EmptyString ->
  get_current_api_key settings increment None now ts g
  = (HTTPException 401 "Missing API key", g)
  /\ get_current_api_key settings increment (Some EmptyString) now ts g
     = (HTTPException 401 "Missing API key", g)
  /\ get_current_api_key settings increment (Some key) now ts g
     = (HTTPException 401 "Invalid API key", g).
Proof.
  intros Hdb Hkey Hne. split; [reflexivity|]. split; [reflexivity|].
  unfold get_current_api_key. destruct key as [|c s]; [done|].
  rewrite Hdb. cbn [get_api_key]. rewrite Hkey. reflexivity.
Qed.

Lemma missing_and_unknown_key_are_401_witness :
  get_current_api_key test_settings true None 0 "2024-01-01 00:00:01" started
  = (HTTPException 401 "Missing API key", started)
  /\ get_current_api_key test_settings true (Some EmptyString) 0 "2024-01-01 00:00:01" started
     = (HTTPException 401 "Missing API key", started)
  /\ get_current_api_key test_settings true (Some "no-such-key") 0
       "2024-01-01 00:00:01" started
     = (HTTPException 401 "Invalid API key", started).
Proof.
  apply (missing_and_unknown_key_are_401 test_settings true 0
           "2024-01-01 00:00:01" started
           (foldl (upsert "2024-01-01 00:00:00" 2) ∅
              [("test-key", "Test User"); ("rate-key", "Rate User")])
           "no-such-key").
  - reflexivity.
  - vm_compute. reflexivity.
  - discriminate.
Defined.

(** C5 as it is written fails: the response to a request without a key
    and the response to a request with an unknown key have the same
    status but not the same detail, so they can be told apart. *)
Lemma missing_and_unknown_key_distinguishable :
  let missing :=
    (get_current_api_key test_settings true None 0 "2024-01-01 00:00:01" started).1 in
  let unknown :=
    (get_current_api_key test_settings true (Some "no-such-key") 0
       "2024-01-01 00:00:01" started).1 in
  missing = HTTPException 401 "Missing API key"
  /\ unknown = HTTPException 401 "Invalid API key"
  /\ missing <> unknown.
Proof.
  cbv zeta.
  assert (Hm : (get_current_api_key test_settings true None 0
                  "2024-01-01 00:00:01" started).1
               = HTTPException 401 "Missing API key") by reflexivity.
  assert (Hu : (get_current_api_key test_settings true (Some "no-such-key") 0
                  "2024-01-01 00:00:01" started).1
               = HTTPException 401 "Invalid API key") by (vm_compute; reflexivity).
  rewrite Hm, Hu. split; [reflexivity|]. split; [reflexivity|]. discriminate.
Qed.

End gate.

(* ===================================================================== *)
(** ** More on the decoder                                                *)
(* ===================================================================== *)

Section decoder_properties.
Import national_id.

(** A string of exactly fourteen characters. *)
Local Abbreviation id14 c0 c1 c2 c3 c4 c5 c6 c7 c8 c9 c10 c11 c12 c13 :=
  (String c0 (String c1 (String c2 (String c3 (String c4 (String c5 (String c6
  (String c7 (String c8 (String c9 (String c10 (String c11 (String c12
  (String c13 EmptyString)))))))))))))).

Lemma length_14 (s : string) :
  String.length s = 14%nat ->
  exists c0 c1 c2 c3 c4 c5 c6 c7 c8 c9 c10 c11 c12 c13,
    s = id14 c0 c1 c2 c3 c4 c5 c6 c7 c8 c9 c10 c11 c12 c13.
Proof.
  intros H.
  do 14 (destruct s as [|? s]; [discriminate H|]).
  destruct s; [|discriminate H]. repeat eexists.
Qed.

Lemma char_isdigit_not_space c : char_isdigit c = true -> isspace c = false.
Proof. destruct c as [[] [] [] [] [] [] [] []]; vm_compute; congruence. Qed.

Lemma decimal_value_range c d : decimal_value c = Some d -> 0 <= d <= 9.
Proof.
  unfold decimal_value.
  destruct (_ && _)%bool eqn:H; [|discriminate]. intros [= <-].
  apply andb_true_iff in H as [H1 H2].
  apply N.leb_le in H1, H2. lia.
Qed.

Lemma decimal_value_isdigit c d : decimal_value c = Some d -> char_isdigit c = true.
Proof.
  unfold decimal_value, char_isdigit.
  destruct (_ && _)%bool; [reflexivity|discriminate].
Qed.

Lemma lstrip_no_space (s : string) :
  all_chars (λ c, negb (isspace c)) s = true -> lstrip s = s.
Proof.
  destruct s as [|c s]; [reflexivity|]. cbn [all_chars lstrip].
  intros [Hc _]%andb_true_iff. now destruct (isspace c).
Qed.

Lemma rstrip_no_space (s : string) :
  all_chars (λ c, negb (isspace c)) s = true -> rstrip s = s.
Proof.
  induction s as [|c s IH]; [reflexivity|]. cbn [all_chars rstrip].
  intros [Hc Hs]%andb_true_iff. rewrite (IH Hs).
  destruct s; [|reflexivity]. now destruct (isspace c).
Qed.

Lemma all_chars_impl (p q : ascii -> bool) (s : string) :
  (forall c, p c = true -> q c = true) ->
  all_chars p s = true -> all_chars q s = true.
Proof.
  intros Hpq. induction s as [|c s IH]; [reflexivity|]. cbn [all_chars].
  intros [Hc Hs]%andb_true_iff. now rewrite (Hpq c Hc), (IH Hs).
Qed.

(** Stripping a string of digits changes nothing. *)
Lemma strip_digits (s : string) :
  all_chars char_isdigit s = true -> strip s = s.
Proof.
  intros H.
  assert (Hn : all_chars (λ c, negb (isspace c)) s = true).
  { apply (all_chars_impl char_isdigit); [|exact H].
    intros c Hc. now rewrite (char_isdigit_not_space c Hc). }
  unfold strip. now rewrite (lstrip_no_space s Hn), (rstrip_no_space s Hn).
Qed.

Lemma int_two_digits a b n :
  int (String a (String b EmptyString)) = Return n -> 0 <= n <= 99.
Proof.
  unfold int. cbn [int_from].
  destruct (decimal_value a) as [x|] eqn:Ha; [|discriminate].
  destruct (decimal_value b) as [y|] eqn:Hb; [|discriminate].
  intros [= <-].
  apply decimal_value_range in Ha, Hb. lia.
Qed.

Lemma make_date_Some y m d bd :
  make_date y m d = Some bd ->
  bd = {| year := y; month := m; day := d |}
  /\ 1 <= m <= 12 /\ 1 <= d <= days_in_month y m.
Proof.
  unfold make_date. destruct (_ && _)%bool eqn:H; [|discriminate].
  intros [= <-]. repeat (apply andb_true_iff in H as [H ?]).
  repeat match goal with
         | H : (_ <=? _) = true |- _ => apply Z.leb_le in H
         end.
  repeat split; lia.
Qed.

Lemma century_map_Some cd century :
  century_map cd = Some century -> century = 1900 \/ century = 2000.
Proof.
  unfold century_map. repeat case_match; intros [= <-]; auto.
Qed.

(** Whatever the decoder returns is well formed: the input, stripped, had
    fourteen characters; the birth date is a calendar date between 1900 and
    2099; the governorate code is characters 8 and 9 of the stripped input
    and is in the table, with the name the table gives it; the gender is
    ["male"] for an odd thirteenth digit and ["female"] for an even one. *)
Theorem parse_national_id_sound (s : string) d :
  parse_national_id s = Return d ->
  String.length (strip s) = 14%nat
  /\ 1900 <= year (birth_date d) <= 2099
  /\ 1 <= month (birth_date d) <= 12
  /\ 1 <= day (birth_date d)
       <= days_in_month (year (birth_date d)) (month (birth_date d))
  /\ governorate_code d = slice 7 9 (strip s)
  /\ _GOVERNORATE_CODES !! governorate_code d = Some (governorate_name d)
  /\ exists c g,
       String.get 12 (strip s) = Some c /\ decimal_value c = Some g
       /\ gender d = if Z.odd g then "male" else "female".
Proof.
  unfold parse_national_id. set (stripped := strip s).
  destruct (Nat.eqb (String.length stripped) 14) eqn:Hlen; [|discriminate].
  apply Nat.eqb_eq in Hlen. cbn [negb orb].
  destruct (isdigit stripped); [|discriminate]. cbn [negb].
  destruct (length_14 _ Hlen)
    as (c0&c1&c2&c3&c4&c5&c6&c7&c8&c9&c10&c11&c12&c13&->).
  cbn [slice substring Nat.sub].
  destruct (century_map _) as [century|] eqn:Hc; [|discriminate].
  destruct (int (String c1 _)) as [yy| |] eqn:Hyy; try discriminate.
  destruct (int (String c3 _)) as [mm| |] eqn:Hmm; try discriminate.
  destruct (int (String c5 _)) as [dd| |] eqn:Hdd; try discriminate.
  cbn [bind].
  destruct (make_date _ _ _) as [bd|] eqn:Hbd; [|discriminate].
  destruct (_GOVERNORATE_CODES !! _) as [name|] eqn:Hgov; [|discriminate].
  destruct (String.eqb name EmptyString); [discriminate|].
  unfold int at 1. cbn [int_from].
  destruct (decimal_value c12) as [g|] eqn:Hg; [|discriminate].
  cbn [bind]. intros [= <-]. cbn [birth_date gender governorate_code governorate_name].
  apply make_date_Some in Hbd as (-> & Hm & Hd). cbn [year month day].
  apply int_two_digits in Hyy. apply century_map_Some in Hc.
  split; [reflexivity|]. split; [lia|]. split; [exact Hm|]. split; [exact Hd|].
  split; [reflexivity|]. split; [exact Hgov|].
  exists c12, g. split; [reflexivity|]. split; [exact Hg|].
  replace (10 * 0 + g) with g by lia.
  pose proof (decimal_value_range _ _ Hg) as Hr.
  assert (Hcases : g = 0 \/ g = 1 \/ g = 2 \/ g = 3 \/ g = 4 \/ g = 5
                   \/ g = 6 \/ g = 7 \/ g = 8 \/ g = 9) by lia.
  repeat destruct Hcases as [->|Hcases]; try subst g; reflexivity.
Qed.

(** An ID of 28 February 1990, Alexandria, even thirteenth digit. *)
Lemma parse_national_id_sound_witness :
  let s := "29002280200021" in
  let d := {| birth_date := {| year := 1990; month := 2; day := 28 |};
              gender := "female";
              governorate_code := "02";
              governorate_name := "Alexandria" |} in
  parse_national_id s = Return d
  /\ String.length (strip s) = 14%nat
  /\ 1900 <= year (birth_date d) <= 2099
  /\ 1 <= month (birth_date d) <= 12
  /\ 1 <= day (birth_date d)
       <= days_in_month (year (birth_date d)) (month (birth_date d))
  /\ governorate_code d = slice 7 9 (strip s)
  /\ _GOVERNORATE_CODES !! governorate_code d = Some (governorate_name d)
  /\ exists c g,
       String.get 12 (strip s) = Some c /\ decimal_value c = Some g
       /\ gender d = if Z.odd g then "male" else "female".
Proof.
  cbv zeta. split; [vm_compute; reflexivity|].
  apply parse_national_id_sound. vm_compute. reflexivity.
Defined.

Ltac split_all_chars H :=
  cbn [all_chars] in H;
  repeat (let Hc := fresh "Hc" in apply andb_true_iff in H as [Hc H]);
  clear H.

(** The decoder reads characters 1 to 9 and 13 only: on fourteen digits the
    serial number (characters 10 to 12) and the last character, the check
    digit, can be replaced by any digits without changing the result, so no
    checksum is verified. *)
Theorem parse_national_id_ignores_serial_and_check_digit
    c0 c1 c2 c3 c4 c5 c6 c7 c8 c9 c10 c11 c12 c13 d9 d10 d11 d13 :
  all_chars char_isdigit (id14 c0 c1 c2 c3 c4 c5 c6 c7 c8 c9 c10 c11 c12 c13) = true ->
  all_chars char_isdigit (String d9 (String d10 (String d11 (String d13 EmptyString))))
  = true ->
  parse_national_id (id14 c0 c1 c2 c3 c4 c5 c6 c7 c8 d9 d10 d11 c12 d13)
  = parse_national_id (id14 c0 c1 c2 c3 c4 c5 c6 c7 c8 c9 c10 c11 c12 c13).
Proof.
  intros H Hd.
  assert (H' : all_chars char_isdigit
                 (id14 c0 c1 c2 c3 c4 c5 c6 c7 c8 d9 d10 d11 c12 d13) = true).
  { pose proof H as H2. split_all_chars H2. split_all_chars Hd.
    cbn [all_chars].
    repeat match goal with Hx : char_isdigit _ = true |- _ => rewrite Hx; clear Hx end.
    reflexivity. }
  unfold parse_national_id.
  rewrite (strip_digits _ H), (strip_digits _ H').
  unfold isdigit. rewrite H, H'.
  cbn [String.length Nat.eqb negb orb slice substring Nat.sub]. reflexivity.
Qed.

(** The ID of the service's test with another serial number and another
    last digit. *)
Lemma parse_national_id_ignores_serial_and_check_digit_witness :
  parse_national_id "30101012199918" = parse_national_id "30101012100013".
Proof.
  apply (parse_national_id_ignores_serial_and_check_digit
           "3" "0" "1" "0" "1" "0" "1" "2" "1" "0" "0" "0" "1" "3"
           "9" "9" "9" "8"); reflexivity.
Defined.

(** On fourteen digits whose first is neither 2 nor 3 the decoder reports
    the century, before it looks at the date or at the governorate. *)
Theorem parse_national_id_unsupported_century
    c0 c1 c2 c3 c4 c5 c6 c7 c8 c9 c10 c11 c12 c13 :
  all_chars char_isdigit (id14 c0 c1 c2 c3 c4 c5 c6 c7 c8 c9 c10 c11 c12 c13) = true ->
  c0 <> "2"%char -> c0 <> "3"%char ->
  parse_national_id (id14 c0 c1 c2 c3 c4 c5 c6 c7 c8 c9 c10 c11 c12 c13)
  = NationalIDValidationError "Unsupported century digit in National ID".
Proof.
  intros H H2 H3. unfold parse_national_id.
  rewrite (strip_digits _ H). unfold isdigit. rewrite H.
  cbn [String.length Nat.eqb negb orb slice substring Nat.sub].
  unfold century_map. cbn [String.eqb].
  destruct (Ascii.eqb_spec c0 "2"); [contradiction|].
  destruct (Ascii.eqb_spec c0 "3"); [contradiction|].
  reflexivity.
Qed.

(** The invalid ID of the service's test; its date and governorate would
    be fine. *)
Lemma parse_national_id_unsupported_century_witness :
  parse_national_id "10101012100013"
  = NationalIDValidationError "Unsupported century digit in National ID".
Proof.
  apply (parse_national_id_unsupported_century
           "1" "0" "1" "0" "1" "0" "1" "2" "1" "0" "0" "0" "1" "3");
    [reflexivity|discriminate|discriminate].
Defined.

(** When the stripped input is made of the decimal digits 0 to 9, the
    decoder returns details or raises its own validation error: the
    [ValueError] of [int()] cannot occur. *)
Theorem parse_national_id_decimal_no_ValueError (s : string) :
  all_chars char_isdecimal (strip s) = true ->
  parse_national_id s <> ValueError.
Proof.
  unfold parse_national_id. set (stripped := strip s). intros H.
  destruct (Nat.eqb (String.length stripped) 14) eqn:Hlen; [|discriminate].
  apply Nat.eqb_eq in Hlen. cbn [negb orb].
  destruct (isdigit stripped); [|discriminate]. cbn [negb].
  destruct (length_14 _ Hlen)
    as (c0&c1&c2&c3&c4&c5&c6&c7&c8&c9&c10&c11&c12&c13&Heq).
  rewrite Heq in *. clear Heq stripped Hlen. split_all_chars H.
  unfold char_isdecimal in *.
  cbn [slice substring Nat.sub]. unfold int, bind. cbn [int_from].
  destruct (decimal_value c1); [|discriminate].
  destruct (decimal_value c2); [|discriminate].
  destruct (decimal_value c3); [|discriminate].
  destruct (decimal_value c4); [|discriminate].
  destruct (decimal_value c5); [|discriminate].
  destruct (decimal_value c6); [|discriminate].
  destruct (decimal_value c12); [|discriminate].
  repeat case_match; discriminate.
Qed.

Lemma parse_national_id_decimal_no_ValueError_witness :
  parse_national_id " 29913320100013 " <> ValueError.
Proof.
  apply parse_national_id_decimal_no_ValueError. vm_compute. reflexivity.
Defined.

(** The check [isdigit] lets through digits that [int()] does not read,
    such as the superscript two.  On fourteen [isdigit] characters that
    start with 2 or 3, one such character among the six of the birth date
    makes the decoder end in the [ValueError] of [int()], which is not its
    validation error. *)
Theorem parse_national_id_ValueError
    c0 c1 c2 c3 c4 c5 c6 c7 c8 c9 c10 c11 c12 c13 :
  all_chars char_isdigit (id14 c0 c1 c2 c3 c4 c5 c6 c7 c8 c9 c10 c11 c12 c13) = true ->
  c0 = "2"%char \/ c0 = "3"%char ->
  all_chars char_isdecimal
    (String c1 (String c2 (String c3 (String c4 (String c5 (String c6 EmptyString))))))
  = false ->
  parse_national_id (id14 c0 c1 c2 c3 c4 c5 c6 c7 c8 c9 c10 c11 c12 c13)
  = ValueError.
Proof.
  intros H Hc0 Hbad. unfold parse_national_id.
  rewrite (strip_digits _ H). unfold isdigit. rewrite H.
  cbn [String.length Nat.eqb negb orb slice substring Nat.sub].
  assert (Hc : exists century, century_map (String c0 EmptyString) = Some century)
    by (destruct Hc0 as [-> | ->]; eexists; reflexivity).
  destruct Hc as [century ->].
  unfold int, bind. cbn [int_from all_chars] in *. unfold char_isdecimal in Hbad.
  destruct (decimal_value c1); [|reflexivity].
  destruct (decimal_value c2); [|reflexivity].
  destruct (decimal_value c3); [|reflexivity].
  destruct (decimal_value c4); [|reflexivity].
  destruct (decimal_value c5); [|reflexivity].
  destruct (decimal_value c6); [|reflexivity].
  discriminate Hbad.
Qed.

(** A 3, then a superscript two where the year starts. *)
Lemma parse_national_id_ValueError_witness :
  parse_national_id (String "3" (String "178" "010101210001"))
  = ValueError.
Proof.
  apply (parse_national_id_ValueError
           "3" "178" "0" "1" "0" "1" "0" "1" "2" "1" "0" "0" "0" "1");
    [reflexivity|right; reflexivity|reflexivity].
Defined.

End decoder_properties.

(* ===================================================================== *)
(** ** More on the rate limiter                                           *)
(* ===================================================================== *)

Section limiter_properties.
Import security.

Implicit Types (self : RateLimiter) (key : string) (st : RateLimitState).
Implicit Types (reqs : list request) (limit now : Z).

Local Abbreviation ask k l t := {| req_key := k; req_limit := l; req_now := t |}.

(** A call of [check] for one key leaves the window of every other key,
    and the window length, as they were. *)
Theorem check_touches_one_key key key' limit now self :
  key <> key' ->
  _state (check key limit now self).2 !! key' = _state self !! key'
  /\ window_seconds (check key limit now self).2 = window_seconds self.
Proof.
  intros Hne. split.
  - now apply check_other_key.
  - apply check_window_seconds.
Qed.

Lemma check_touches_one_key_witness :
  let self := {| window_seconds := 60;
                 _state := {[ "test-key" := {| start_time := 5; count := 2 |} ]} |} in
  _state (check "rate-key" 2 10 self).2 !! "test-key"
  = Some {| start_time := 5; count := 2 |}
  /\ window_seconds (check "rate-key" 2 10 self).2 = 60.
Proof.
  apply (check_touches_one_key "rate-key" "test-key" 2 10). discriminate.
Defined.

Lemma check_count_step key L now self :
  1 <= L ->
  (forall st, _state self !! key = Some st -> 1 <= count st <= L) ->
  forall st', _state (check key L now self).2 !! key = Some st' ->
              1 <= count st' <= L.
Proof.
  intros HL Hinv st'. unfold check.
  destruct (_state self !! key) as [st|] eqn:Hst.
  - specialize (Hinv st eq_refl).
    destruct (Z.leb_spec (window_seconds self) (now - start_time st)).
    + cbn. rewrite lookup_insert_eq. intros [= <-]. cbn. lia.
    + destruct (Z.leb_spec L (count st)).
      * cbn. rewrite Hst. intros [= <-]. lia.
      * cbn. rewrite lookup_insert_eq. intros [= <-]. cbn. lia.
  - cbn. rewrite lookup_insert_eq. intros [= <-]. cbn. lia.
Qed.

(** The count of a key's window stays between 1 and the key's limit:
    through any run of requests in which the key is always asked with the
    same limit [L >= 1], a window that starts within these bounds, or no
    window at all, ends within them. *)
Theorem run_count_bounds reqs : forall self key L,
  1 <= L ->
  Forall (λ r, req_key r = key -> req_limit r = L) reqs ->
  (forall st, _state self !! key = Some st -> 1 <= count st <= L) ->
  forall st', _state (run reqs self).2 !! key = Some st' -> 1 <= count st' <= L.
Proof.
  induction reqs as [|r reqs IH]; intros self key L HL Hreqs Hinv st'.
  - cbn. apply Hinv.
  - apply Forall_cons in Hreqs as [Hr Hreqs]. rewrite run_cons. cbn [snd].
    apply (IH _ key L HL Hreqs). intros st.
    destruct (decide (req_key r = key)) as [Hk|Hk].
    + rewrite Hk, (Hr Hk). now apply check_count_step.
    + rewrite check_other_key by done. apply Hinv.
Qed.

(** Limit 2: three requests of ["rate-key"] in one window, one of another
    key in between; the count stops at 2. *)
Lemma run_count_bounds_witness :
  let final :=
    (run [ask "rate-key" 2 0; ask "test-key" 9 1; ask "rate-key" 2 2;
          ask "rate-key" 2 3]
         {| window_seconds := 60; _state := ∅ |}).2 in
  _state final !! "rate-key" = Some {| start_time := 0; count := 2 |}
  /\ 1 <= count {| start_time := 0; count := 2 |} <= 2.
Proof.
  cbv zeta. split; [vm_compute; reflexivity|].
  apply (run_count_bounds
           [ask "rate-key" 2 0; ask "test-key" 9 1; ask "rate-key" 2 2;
            ask "rate-key" 2 3]
           {| window_seconds := 60; _state := ∅ |} "rate-key" 2).
  - lia.
  - repeat (apply Forall_cons; split); try (apply Forall_nil; exact I);
      cbn; intros Hk; try discriminate Hk; reflexivity.
  - intros st Hst. vm_compute in Hst. discriminate Hst.
  - vm_compute. reflexivity.
Defined.

Lemma run_app reqs1 reqs2 self :
  run (reqs1 ++ reqs2)%list self
  = (((run reqs1 self).1 ++ (run reqs2 (run reqs1 self).2).1)%list,
     (run reqs2 (run reqs1 self).2).2).
Proof.
  revert self. induction reqs1 as [|r reqs1 IH]; intros self.
  - cbn. now destruct (run reqs2 self).
  - change ((r :: reqs1) ++ reqs2)%list with (r :: (reqs1 ++ reqs2))%list.
    rewrite !run_cons, IH. reflexivity.
Qed.

(** [m] requests for one key at one instant inside its window: they are
    allowed while the count is below the limit, and the count ends at the
    limit when there were enough of them. *)
Lemma run_replicate_inside m : forall self key st L t,
  _state self !! key = Some st ->
  t - start_time st < window_seconds self ->
  (Z.of_nat m <= L - count st) ->
  (run (replicate m (ask key L t)) self).1 = replicate m (key, Allowed)
  /\ (run (replicate m (ask key L t)) self).2
     = (if m is O then self
        else set_state self key {| start_time := start_time st;
                                   count := count st + Z.of_nat m |}).
Proof.
  induction m as [|m IH]; intros self key st L t Hst Ht Hm; [split; reflexivity|].
  cbn [replicate]. rewrite run_cons. cbn [req_key req_limit req_now fst snd].
  rewrite (check_inside _ _ _ _ st Hst Ht).
  destruct (Z.leb_spec L (count st)); [lia|]. cbn [fst snd].
  set (st1 := {| start_time := start_time st; count := count st + 1 |}).
  destruct (IH (set_state self key st1) key st1 L t) as [Hout Hfin].
  - cbn. apply lookup_insert_eq.
  - exact Ht.
  - cbn [count st1]. lia.
  - rewrite Hout, Hfin. split; [reflexivity|].
    destruct m as [|m].
    + reflexivity.
    + unfold set_state. cbn [window_seconds _state start_time count st1].
      rewrite insert_insert_eq.
      replace (count st + 1 + Z.of_nat (S m)) with (count st + Z.of_nat (S (S m)))
        by lia.
      reflexivity.
Qed.

(** The limiter is a fixed window, not a sliding one: a key with limit
    [L >= 1] can have [L] requests allowed at the end of one window and [L]
    more at the start of the next, however close [t1] and [t2] are. *)
Theorem check_burst_across_boundary self key L t0 t1 t2 :
  1 <= L ->
  0 < window_seconds self ->
  opens_window self key t0 = true ->
  t1 - t0 < window_seconds self ->
  window_seconds self <= t2 - t0 ->
  let n := Z.to_nat (L - 1) in
  (run ((ask key L t0 :: replicate n (ask key L t1))
        ++ (ask key L t2 :: replicate n (ask key L t2)))%list self).1
  = replicate (S n + S n) (key, Allowed).
Proof.
  intros HL HW Hopen Ht1 Ht2 n.
  rewrite run_app. cbn [fst].
  (* the first window *)
  rewrite !run_cons. cbn [req_key req_limit req_now fst snd].
  rewrite (check_opens _ _ _ _ Hopen). cbn [fst snd].
  set (st0 := {| start_time := t0; count := 1 |}).
  destruct (run_replicate_inside n (set_state self key st0) key st0 L t1)
    as [Hout1 Hfin1]; [cbn; apply lookup_insert_eq|exact Ht1|cbn; lia|].
  rewrite Hout1, Hfin1.
  (* the state at the end of the first window *)
  set (self1 := if n is O then set_state self key st0 else _).
  assert (Hself1 : exists st1, _state self1 !! key = Some st1
                               /\ start_time st1 = t0
                               /\ window_seconds self1 = window_seconds self).
  { subst self1. destruct n; eexists; (split; [cbn; apply lookup_insert_eq|]);
      split; reflexivity. }
  destruct Hself1 as (st1 & Hst1 & Hstart1 & HW1).
  assert (Hopen2 : opens_window self1 key t2 = true).
  { unfold opens_window. rewrite Hst1, Hstart1, HW1. apply Z.leb_le. lia. }
  rewrite (check_opens _ _ _ _ Hopen2). cbn [fst snd].
  set (st2 := {| start_time := t2; count := 1 |}).
  destruct (run_replicate_inside n (set_state self1 key st2) key st2 L t2)
    as [Hout2 _]; [cbn; apply lookup_insert_eq|cbn; lia|cbn; lia|].
  rewrite Hout2.
  change ((key, Allowed) :: replicate n (key, Allowed))
    with (replicate (S n) (key, Allowed)).
  now rewrite <- replicate_add.
Qed.

(** Limit 2, window 60: two requests at 0 and 59, two more at 60. *)
Lemma check_burst_across_boundary_witness :
  (run [ask "rate-key" 2 0; ask "rate-key" 2 59;
        ask "rate-key" 2 60; ask "rate-key" 2 60]
       {| window_seconds := 60; _state := ∅ |}).1
  = replicate 4 ("rate-key", Allowed).
Proof.
  apply (check_burst_across_boundary
           {| window_seconds := 60; _state := ∅ |} "rate-key" 2 0 59 60);
    cbn; try lia; reflexivity.
Defined.

End limiter_properties.

(* ===================================================================== *)
(** ** More on the key store                                              *)
(* ===================================================================== *)

Section store_properties.
Import database.

Implicit Types (rows : gmap string ApiKeyRow) (r : ApiKeyRow) (db : Database).
Implicit Types (key ts : string) (default_keys : list (string * string)).

(** The row the upsert inserts for a key that has none. *)
Local Abbreviation new_row o limit ts :=
  {| owner := o; rate_limit := limit; total_requests := 0;
     created_at := ts; updated_at := ts |}.

(** What the upsert leaves under the key it is given. *)
Local Abbreviation upserted o limit ts before :=
  (match before with
   | Some r => set_owner o r
   | None => new_row o limit ts
   end).

Lemma upsert_lookup_key ts limit rows key o :
  upsert ts limit rows (key, o) !! key = Some (upserted o limit ts (rows !! key)).
Proof.
  cbn. destruct (rows !! key) as [r|] eqn:Hr; now rewrite lookup_insert_eq.
Qed.

Lemma foldl_upsert_lookup ts limit default_keys : forall rows key,
  foldl (upsert ts limit) rows default_keys !! key
  = match last (owners_for key default_keys) with
    | Some o => Some (upserted o limit ts (rows !! key))
    | None => rows !! key
    end.
Proof.
  induction default_keys as [|[k o] d IH]; intros rows key; [reflexivity|].
  cbn [foldl]. rewrite IH. unfold owners_for.
  destruct (decide (k = key)) as [->|Hne].
  - rewrite filter_cons_True by done. cbn [fmap list_fmap snd].
    rewrite last_cons. fold (owners_for key d).
    rewrite upsert_lookup_key.
    destruct (last (owners_for key d)); [|reflexivity].
    now destruct (rows !! key).
  - rewrite filter_cons_False by done. fold (owners_for key d).
    now rewrite upsert_lookup_other.
Qed.

Lemma row_initialise default_keys limit ts db key :
  row key (initialise default_keys limit ts db).2
  = match (initialise default_keys limit ts db).1 with
    | Returned =>
        match last (owners_for key default_keys) with
        | Some o => Some (upserted o limit ts (row key db))
        | None => row key db
        end
    | OverflowError => row key db
    end.
Proof.
  rewrite initialise_spec.
  assert (Htable : forall k, create_table_if_not_exists db !! k = row k db).
  { intros k. destruct db; [reflexivity|apply lookup_empty]. }
  destruct (sqlite_integer limit || bool_decide (default_keys = []));
    cbn [fst snd row]; [|apply Htable].
  rewrite foldl_upsert_lookup. now rewrite Htable.
Qed.

(** The store after [initialise], row by row and whatever the store was
    before, the table missing included.  The call returns when the limit is
    an SQLite INTEGER or when there are no defaults; otherwise it raises
    [OverflowError], and then every key is as before, row or no row.  After
    a call that returned, a key the defaults list has a row: the row it had
    with the owner replaced by the last one listed for it, or, if it had
    none, a new row with that owner, the given limit, a count of 0 and both
    timestamps at the current time.  A key the defaults do not list is as
    before. *)
Theorem initialise_row default_keys limit ts db key :
  (initialise default_keys limit ts db).1
  = (if sqlite_integer limit || bool_decide (default_keys = [])
     then Returned else OverflowError)
  /\ row key (initialise default_keys limit ts db).2
     = match (initialise default_keys limit ts db).1 with
       | Returned =>
           match last (owners_for key default_keys) with
           | Some o => Some (upserted o limit ts (row key db))
           | None => row key db
           end
       | OverflowError => row key db
       end.
Proof.
  split; [|apply row_initialise].
  rewrite initialise_spec. now case_match.
Qed.

(** [initialise] is idempotent: after a run that returned, a second run
    with the same defaults changes nothing in the store, even at a later
    time and with another limit, whether that second run returns or raises. *)
Theorem initialise_idempotent default_keys limit ts limit' ts' db :
  (initialise default_keys limit ts db).1 = Returned ->
  (initialise default_keys limit' ts'
     (initialise default_keys limit ts db).2).2
  = (initialise default_keys limit ts db).2.
Proof.
  intros Hreturned.
  pose proof (initialise_creates_table default_keys limit ts db) as [rows1 H1].
  pose proof (initialise_creates_table default_keys limit' ts' (Some rows1))
    as [rows2 H2].
  rewrite H1, H2. f_equal. apply map_eq. intros k.
  change (row k (Some rows2) = row k (Some rows1)).
  rewrite <- H2, row_initialise.
  destruct (initialise default_keys limit' ts' (Some rows1)).1; [|reflexivity].
  destruct (last (owners_for k default_keys)) as [o|] eqn:Ho; [|reflexivity].
  rewrite <- H1, row_initialise, Hreturned, Ho.
  now destruct (row k db).
Qed.

Lemma initialise_idempotent_witness :
  let defaults := [("test-key", "Test User"); ("rate-key", "Rate User")] in
  let once := initialise defaults 2 "2024-01-01 00:00:00" None in
  once.1 = Returned
  /\ (initialise defaults 60 "2024-06-01 00:00:00" once.2).2 = once.2
  /\ (initialise defaults (2 ^ 63) "2024-06-01 00:00:00" once.2)
     = (OverflowError, once.2).
Proof.
  cbv zeta. split; [reflexivity|]. split.
  - apply (initialise_idempotent
             [("test-key", "Test User"); ("rate-key", "Rate User")]
             2 "2024-01-01 00:00:00" 60 "2024-06-01 00:00:00" None).
    reflexivity.
  - vm_compute. reflexivity.
Defined.

(** A default key that has no row yet can be looked up after an
    [initialise] whose limit is an SQLite INTEGER: the call returns,
    [get_api_key] returns the key with its last listed owner, the given
    limit and no usage, and [get_usage] reports 0. *)
Theorem initialise_then_lookup default_keys limit ts db key o :
  sqlite_integer limit = true ->
  row key db = None ->
  last (owners_for key default_keys) = Some o ->
  (initialise default_keys limit ts db).1 = Returned
  /\ get_api_key key (initialise default_keys limit ts db).2
     = Done (Some {| rec_key := key; rec_owner := o;
                     rec_rate_limit := Some limit; rec_total_requests := 0 |})
  /\ get_usage key (initialise default_keys limit ts db).2 = Done (Some 0).
Proof.
  intros Hlimit Hrow Ho.
  assert (Hret : (initialise default_keys limit ts db).1 = Returned)
    by (rewrite initialise_spec, Hlimit; reflexivity).
  pose proof (row_initialise default_keys limit ts db key) as H.
  rewrite Hret, Ho, Hrow in H.
  destruct (initialise_creates_table default_keys limit ts db) as [rows Hrows].
  rewrite Hrows in *. cbn in H. cbn.
  split; [exact Hret|]. now rewrite H.
Qed.

Lemma initialise_then_lookup_witness :
  let defaults := [("test-key", "Test User"); ("rate-key", "Rate User");
                   ("test-key", "Renamed")] in
  (initialise defaults 2 "2024-01-01 00:00:00" None).1 = Returned
  /\ get_api_key "test-key" (initialise defaults 2 "2024-01-01 00:00:00" None).2
     = Done (Some {| rec_key := "test-key"; rec_owner := "Renamed";
                     rec_rate_limit := Some 2; rec_total_requests := 0 |})
  /\ get_usage "test-key" (initialise defaults 2 "2024-01-01 00:00:00" None).2
     = Done (Some 0).
Proof.
  apply (initialise_then_lookup
           [("test-key", "Test User"); ("rate-key", "Rate User");
            ("test-key", "Renamed")] 2 "2024-01-01 00:00:00" None "test-key");
    reflexivity.
Defined.

(** Usage adds up: one call of [increment_usage] per timestamp of a list
    raises the count of an existing key by the length of the list, as long as
    the count stays an SQLite INTEGER before each call; it stamps the row
    with the last timestamp and leaves every other row alone. *)
Theorem increment_usage_each_adds_length timestamps : forall key rows r,
  rows !! key = Some r ->
  - 2 ^ 63 <= total_requests r ->
  total_requests r + Z.of_nat (length timestamps) <= 2 ^ 63 ->
  exists rows',
    increment_usage_each key timestamps (Some rows) = Done (Some rows')
    /\ rows' !! key
       = Some {| owner := owner r;
                 rate_limit := rate_limit r;
                 total_requests := total_requests r + Z.of_nat (length timestamps);
                 created_at := created_at r;
                 updated_at := default (updated_at r) (last timestamps) |}
    /\ forall k, k <> key -> rows' !! k = rows !! k.
Proof.
  induction timestamps as [|ts rest IH]; intros key rows r Hr Hlow Hhigh.
  - exists rows. cbn. rewrite Z.add_0_r. split; [reflexivity|].
    split; [now destruct r|]. reflexivity.
  - cbn [increment_usage_each increment_usage]. cbn [length] in Hhigh.
    assert (Hone : sqlite_add_one (total_requests r) = total_requests r + 1)
      by (apply sqlite_add_one_integer, sqlite_integer_range; lia).
    destruct (IH key (alter (bump ts) key rows) (bump ts r))
      as (rows' & Hrun & Hkey & Hother).
    { rewrite lookup_alter, decide_True, Hr by reflexivity. reflexivity. }
    { cbn [bump total_requests]. lia. }
    { cbn [bump total_requests]. lia. }
    exists rows'. split; [exact Hrun|]. split.
    + rewrite Hkey. cbn [bump owner rate_limit total_requests created_at updated_at].
      rewrite last_cons, Hone. f_equal. f_equal.
      * cbn [length]. lia.
      * now destruct (last rest).
    + intros k Hk. rewrite (Hother k Hk).
      rewrite lookup_alter, decide_False by done. reflexivity.
Qed.

Lemma increment_usage_each_adds_length_witness :
  let r := {| owner := "Test User"; rate_limit := 2; total_requests := 5;
              created_at := "2024-01-01 00:00:00";
              updated_at := "2024-01-01 00:00:00" |} in
  exists rows',
    increment_usage_each "test-key"
      ["2024-01-02 00:00:00"; "2024-01-03 00:00:00"; "2024-01-04 00:00:00"]
      (Some {[ "test-key" := r ]}) = Done (Some rows')
    /\ rows' !! "test-key"
       = Some {| owner := "Test User"; rate_limit := 2; total_requests := 5 + 3;
                 created_at := "2024-01-01 00:00:00";
                 updated_at := "2024-01-04 00:00:00" |}
    /\ forall k, k <> "test-key" -> rows' !! k = ({[ "test-key" := r ]} : gmap _ _) !! k.
Proof.
  cbv zeta.
  apply (increment_usage_each_adds_length
           ["2024-01-02 00:00:00"; "2024-01-03 00:00:00"; "2024-01-04 00:00:00"]
           "test-key" _
           {| owner := "Test User"; rate_limit := 2; total_requests := 5;
              created_at := "2024-01-01 00:00:00";
              updated_at := "2024-01-01 00:00:00" |}).
  - vm_compute. reflexivity.
  - cbn. lia.
  - cbn. lia.
Defined.



End store_properties.

(* ===================================================================== *)
(** ** More on the access gate                                            *)
(* ===================================================================== *)

Section gate_properties.
Import config database security.

Implicit Types (settings : Settings) (g : Globals) (key ts : string).
Implicit Types (rows : gmap string ApiKeyRow) (r : ApiKeyRow).

(** A request the dependency answers with an [HTTPException], the 429 of
    the limiter as much as a 401, has no effect at all: the store and the
    limiter are as before, so a rejected request uses up no quota. *)
Theorem http_exception_changes_nothing
    settings increment api_key now ts g status_code detail :
  (get_current_api_key settings increment api_key now ts g).1
  = HTTPException status_code detail ->
  (get_current_api_key settings increment api_key now ts g).2 = g.
Proof.
  destruct api_key as [[|c s]|]; [reflexivity| |reflexivity].
  destruct (the_database g) as [rows|] eqn:Hdb.
  - destruct (rows !! String c s) as [r|] eqn:Hr.
    + rewrite (get_current_api_key_known _ _ _ _ _ _ rows r); [|done..].
      cbv zeta.
      destruct (check _ _ _ _).1 eqn:Hres; [discriminate|]. intros _. cbn [snd].
      rewrite (check_rejected_same _ _ _ _ Hres), <- Hdb. apply globals_eta.
    + unfold get_current_api_key. rewrite Hdb. cbn [get_api_key]. now rewrite Hr.
  - unfold get_current_api_key. rewrite Hdb. reflexivity.
Qed.

(** A key at its limit inside its window: the request gets the 429. *)
Lemma http_exception_changes_nothing_witness :
  let g := {| the_database :=
                (initialise [("rate-key", "Rate User")] 2 "2024-01-01 00:00:00" None).2;
              rate_limiter :=
                {| window_seconds := 60;
                   _state := {[ "rate-key" := {| start_time := 0; count := 2 |} ]} |} |} in
  (get_current_api_key
     {| api_rate_limit_per_minute := 2; default_api_keys := [];
        database_path := "data/app.db" |}
     true (Some "rate-key") 30 "2024-01-01 00:00:30" g).1
  = HTTPException 429 "Rate limit exceeded"
  /\ (get_current_api_key
       {| api_rate_limit_per_minute := 2; default_api_keys := [];
          database_path := "data/app.db" |}
       true (Some "rate-key") 30 "2024-01-01 00:00:30" g).2 = g.
Proof.
  cbv zeta.
  assert (H : (get_current_api_key
     {| api_rate_limit_per_minute := 2; default_api_keys := [];
        database_path := "data/app.db" |}
     true (Some "rate-key") 30 "2024-01-01 00:00:30"
     {| the_database :=
          (initialise [("rate-key", "Rate User")] 2 "2024-01-01 00:00:00" None).2;
        rate_limiter :=
          {| window_seconds := 60;
             _state := {[ "rate-key" := {| start_time := 0; count := 2 |} ]} |} |}).1
     = HTTPException 429 "Rate limit exceeded") by (vm_compute; reflexivity).
  split; [exact H|].
  exact (http_exception_changes_nothing _ _ _ _ _ _ _ _ H).
Defined.

(** The process-wide default limit plays no part: a row always carries its
    own [rate_limit], so the dependency does the same under any settings. *)
Theorem get_current_api_key_ignores_settings
    settings settings' increment api_key now ts g :
  get_current_api_key settings increment api_key now ts g
  = get_current_api_key settings' increment api_key now ts g.
Proof.
  unfold get_current_api_key.
  destruct api_key as [[|c s]|]; try reflexivity.
  destruct (the_database g) as [rows|]; [|reflexivity]. cbn [get_api_key].
  destruct (rows !! String c s); reflexivity.
Qed.

(** Switching usage tracking off changes the store's part only: the answer
    and the limiter's new state are the same, so a request of the usage
    endpoint takes one unit of the key's quota like any other. *)
Theorem usage_tracking_only_affects_store settings api_key now ts g :
  (get_current_api_key settings false api_key now ts g).1
  = (get_current_api_key settings true api_key now ts g).1
  /\ rate_limiter (get_current_api_key settings false api_key now ts g).2
     = rate_limiter (get_current_api_key settings true api_key now ts g).2.
Proof.
  unfold get_current_api_key.
  destruct api_key as [[|c s]|]; cbn [fst snd]; auto.
  destruct (the_database g) as [rows|] eqn:Hdb; cbn [get_api_key no_such_table];
    [|auto].
  destruct (rows !! String c s) as [r|]; [|auto]. cbn [rec_rate_limit].
  destruct (check _ _ _ _) as [[] limiter']; cbn; auto.
Qed.

(** The record the dependency returns is the row as it was read, before
    this request was counted: its [total_requests] is the old count. *)
Theorem authorized_record_is_the_row_read
    settings increment api_key now ts g record :
  (get_current_api_key settings increment api_key now ts g).1 = Authorized record ->
  api_key = Some (rec_key record)
  /\ exists r,
       row (rec_key record) (the_database g) = Some r
       /\ rec_owner record = owner r
       /\ rec_rate_limit record = Some (rate_limit r)
       /\ rec_total_requests record = total_requests r.
Proof.
  unfold get_current_api_key.
  destruct api_key as [[|c s]|]; try discriminate.
  destruct (the_database g) as [rows|] eqn:Hdb; cbn [get_api_key no_such_table];
    [|discriminate].
  cbn [row]. destruct (rows !! String c s) as [r|] eqn:Hr; [|discriminate].
  cbn [rec_rate_limit].
  destruct (check _ _ _ _) as [[] limiter']; [|discriminate].
  destruct increment; cbn [fst]; intros [= <-]; cbn [rec_key];
    (split; [reflexivity|]); exists r; (split; [exact Hr|]);
    repeat split; reflexivity.
Qed.

Lemma authorized_record_is_the_row_read_witness :
  let settings := {| api_rate_limit_per_minute := 2; default_api_keys := [];
                     database_path := "data/app.db" |} in
  let r := {| owner := "Test User"; rate_limit := 2; total_requests := 7;
              created_at := "2024-01-01 00:00:00";
              updated_at := "2024-01-05 00:00:00" |} in
  let g := {| the_database := Some {[ "test-key" := r ]};
              rate_limiter := {| window_seconds := 60; _state := ∅ |} |} in
  let record := {| rec_key := "test-key"; rec_owner := "Test User";
                   rec_rate_limit := Some 2; rec_total_requests := 7 |} in
  database.get_usage "test-key"
    (the_database (get_current_api_key settings true (Some "test-key") 0
                     "2024-01-06 00:00:00" g).2) = Done (Some 8)
  /\ Some "test-key" = Some (rec_key record)
  /\ exists r',
       row (rec_key record) (the_database g) = Some r'
       /\ rec_owner record = owner r'
       /\ rec_rate_limit record = Some (rate_limit r')
       /\ rec_total_requests record = total_requests r'.
Proof.
  cbv zeta. split; [vm_compute; reflexivity|].
  apply (authorized_record_is_the_row_read
           {| api_rate_limit_per_minute := 2; default_api_keys := [];
              database_path := "data/app.db" |}
           true (Some "test-key") 0 "2024-01-06 00:00:00").
  vm_compute. reflexivity.
Defined.

(** The first request of a key that has a row and no window yet is
    authorized whatever the row's limit, zero and negative limits
    included, and opens the key's window. *)
Theorem first_request_is_authorized settings increment key now ts g r :
  key <> EmptyString ->
  row key (the_database g) = Some r ->
  _state (rate_limiter g) !! key = None ->
  (get_current_api_key settings increment (Some key) now ts g).1
  = Authorized {| rec_key := key; rec_owner := owner r;
                  rec_rate_limit := Some (rate_limit r);
                  rec_total_requests := total_requests r |}
  /\ _state (rate_limiter
              (get_current_api_key settings increment (Some key) now ts g).2) !! key
     = Some {| start_time := now; count := 1 |}.
Proof.
  intros Hne Hrow Hst.
  destruct (the_database g) as [rows|] eqn:Hdb; [|discriminate Hrow].
  cbn [row] in Hrow.
  rewrite (get_current_api_key_known _ _ _ _ _ _ rows r Hne Hdb Hrow).
  cbv zeta. unfold check. rewrite Hst. cbn.
  split; [reflexivity|]. apply lookup_insert_eq.
Qed.

Lemma first_request_is_authorized_witness :
  let settings := {| api_rate_limit_per_minute := 0; default_api_keys := [];
                     database_path := "data/app.db" |} in
  let g := {| the_database :=
                (initialise [("test-key", "Test User")] 0 "2024-01-01 00:00:00" None).2;
              rate_limiter := {| window_seconds := 60; _state := ∅ |} |} in
  (get_current_api_key settings true (Some "test-key") 0 "2024-01-01 00:00:01" g).1
  = Authorized {| rec_key := "test-key"; rec_owner := "Test User";
                  rec_rate_limit := Some 0; rec_total_requests := 0 |}
  /\ _state (rate_limiter
              (get_current_api_key settings true (Some "test-key") 0
                 "2024-01-01 00:00:01" g).2) !! "test-key"
     = Some {| start_time := 0; count := 1 |}.
Proof.
  cbv zeta.
  apply (first_request_is_authorized _ true "test-key" 0 "2024-01-01 00:00:01" _
           {| owner := "Test User"; rate_limit := 0; total_requests := 0;
              created_at := "2024-01-01 00:00:00";
              updated_at := "2024-01-01 00:00:00" |}).
  - discriminate.
  - vm_compute. reflexivity.
  - reflexivity.
Defined.

End gate_properties.

(* ===================================================================== *)
(** ** The endpoints                                                      *)
(* ===================================================================== *)

Section endpoints.
Import config database security.

Implicit Types (settings : Settings) (g : Globals) (key ts payload : string).
Implicit Types (rows : gmap string ApiKeyRow) (r : ApiKeyRow).

(** The body of the inspection endpoint: the response for a payload. *)
Local Abbreviation decoded payload :=
  (match national_id.parse_national_id payload with
   | national_id.Return details => main.NationalIDSuccessResponse payload details
   | national_id.NationalIDValidationError message =>
       main.ErrorResponse payload message
   | national_id.ValueError => main.InternalServerError
   end).

(** An inspection by a key that has a row and is allowed by the limiter:
    the payload is decoded and the request is counted. *)
Lemma inspect_allowed settings key payload now ts g rows r :
  key <> EmptyString ->
  the_database g = Some rows ->
  rows !! key = Some r ->
  (check key (rate_limit r) now (rate_limiter g)).1 = Allowed ->
  main.inspect_national_id settings (Some key) payload now ts g
  = (decoded payload,
     {| the_database := Some (alter (bump ts) key rows);
        rate_limiter := (check key (rate_limit r) now (rate_limiter g)).2 |}).
Proof.
  intros Hne Hdb Hr Hcheck. unfold main.inspect_national_id.
  rewrite (get_current_api_key_known _ _ _ _ _ _ rows r Hne Hdb Hr).
  cbv zeta. rewrite Hcheck. reflexivity.
Qed.

Lemma inspections_inside settings key calls : forall g rows r st,
  key <> EmptyString ->
  the_database g = Some rows ->
  rows !! key = Some r ->
  _state (rate_limiter g) !! key = Some st ->
  Forall (λ call : string * Z * string,
            call.1.2 - start_time st < window_seconds (rate_limiter g)) calls ->
  count st + Z.of_nat (length calls) <= rate_limit r ->
  - 2 ^ 63 <= total_requests r ->
  total_requests r + Z.of_nat (length calls) <= 2 ^ 63 ->
  let g' := main.after_inspections settings key calls g in
  exists rows' r',
    the_database g' = Some rows'
    /\ rows' !! key = Some r'
    /\ rate_limit r' = rate_limit r
    /\ total_requests r' = total_requests r + Z.of_nat (length calls)
    /\ _state (rate_limiter g') !! key
       = Some {| start_time := start_time st;
                 count := count st + Z.of_nat (length calls) |}
    /\ window_seconds (rate_limiter g') = window_seconds (rate_limiter g).
Proof.
  induction calls as [|[[payload now] ts] calls IH];
    intros g rows r st Hne Hdb Hr Hst Hin Hroom Hlow Hhigh;
    unfold main.after_inspections in *.
  - exists rows, r. cbn. rewrite !Z.add_0_r.
    repeat split; try assumption. rewrite Hst. now destruct st.
  - apply Forall_cons in Hin as [Hnow Hin]. cbn [fst snd] in Hnow.
    cbn [length] in Hroom, Hhigh. cbn [foldl fst snd].
    assert (Hone : sqlite_add_one (total_requests r) = total_requests r + 1)
      by (apply sqlite_add_one_integer, sqlite_integer_range; lia).
    assert (Hcheck : check key (rate_limit r) now (rate_limiter g)
                     = (Allowed,
                        set_state (rate_limiter g) key
                          {| start_time := start_time st; count := count st + 1 |})).
    { rewrite (check_inside _ _ _ _ st Hst Hnow).
      destruct (Z.leb_spec (rate_limit r) (count st)); [lia|reflexivity]. }
    rewrite (inspect_allowed _ _ _ _ _ _ rows r Hne Hdb Hr)
      by now rewrite Hcheck.
    rewrite Hcheck. cbn [fst snd].
    set (g1 := {| the_database := _; rate_limiter := _ |}).
    destruct (IH g1 (alter (bump ts) key rows) (bump ts r)
                {| start_time := start_time st; count := count st + 1 |})
      as (rows' & r' & Hdb' & Hr' & Hlimit & Htotal & Hst' & HW);
      [exact Hne|reflexivity| | |exact Hin| | | | ].
    + rewrite lookup_alter, decide_True, Hr by reflexivity. reflexivity.
    + cbn. apply lookup_insert_eq.
    + cbn. lia.
    + cbn [bump total_requests]. lia.
    + cbn [bump total_requests]. lia.
    + exists rows', r'. cbn [bump rate_limit total_requests start_time count] in *.
      repeat split; try assumption.
      * cbn [length]. lia.
      * rewrite Hst'. do 2 f_equal. cbn [length]. lia.
Qed.

(** Every request of a key counts against its quota, those of the usage
    endpoint too.  Take a key with limit [L >= 1].  After [L] inspections
    in one window, the first of which opened it, a request of the usage
    endpoint inside the window is answered with the 429 and changes
    nothing, while the store holds [L] more than before for the key (the
    counts being SQLite INTEGERs throughout). *)
Theorem usage_request_over_quota
    settings key g rows r payload0 t0 ts0 calls t ts :
  key <> EmptyString ->
  the_database g = Some rows ->
  rows !! key = Some r ->
  1 <= rate_limit r ->
  - 2 ^ 63 <= total_requests r ->
  total_requests r + rate_limit r <= 2 ^ 63 ->
  opens_window (rate_limiter g) key t0 = true ->
  Z.of_nat (length calls) = rate_limit r - 1 ->
  Forall (λ call : string * Z * string,
            call.1.2 - t0 < window_seconds (rate_limiter g)) calls ->
  t - t0 < window_seconds (rate_limiter g) ->
  let g' := main.after_inspections settings key ((payload0, t0, ts0) :: calls) g in
  main.get_usage settings (Some key) t ts g'
  = (main.HTTPError 429 "Rate limit exceeded", g')
  /\ database.get_usage key (the_database g')
     = Done (Some (total_requests r + rate_limit r)).
Proof.
  intros Hne Hdb Hr HL Hlow Hhigh Hopen Hlen Hin Ht.
  unfold main.after_inspections. cbn [foldl fst snd].
  assert (Hone : sqlite_add_one (total_requests r) = total_requests r + 1)
    by (apply sqlite_add_one_integer, sqlite_integer_range; lia).
  assert (Hcheck : check key (rate_limit r) t0 (rate_limiter g)
                   = (Allowed, set_state (rate_limiter g) key
                                 {| start_time := t0; count := 1 |}))
    by now apply check_opens.
  rewrite (inspect_allowed _ _ _ _ _ _ rows r Hne Hdb Hr) by now rewrite Hcheck.
  rewrite Hcheck. cbn [fst snd].
  set (g1 := {| the_database := _; rate_limiter := _ |}).
  pose proof (inspections_inside settings key calls g1
                (alter (bump ts0) key rows) (bump ts0 r)
                {| start_time := t0; count := 1 |}) as Hrun.
  unfold main.after_inspections in Hrun.
  destruct Hrun
    as (rows' & r' & Hdb' & Hr' & Hlimit & Htotal & Hst' & HW);
    [exact Hne|reflexivity| | |exact Hin| | | | ].
  - rewrite lookup_alter, decide_True, Hr by reflexivity. reflexivity.
  - cbn. apply lookup_insert_eq.
  - cbn. lia.
  - cbn [bump total_requests]. lia.
  - cbn [bump total_requests]. lia.
  - cbv zeta. set (g' := foldl _ g1 calls) in *.
    cbn [bump rate_limit total_requests start_time count] in *.
    cbn [g1 rate_limiter set_state window_seconds] in HW.
    split.
    + unfold main.get_usage.
      rewrite (get_current_api_key_known _ _ _ _ _ _ rows' r' Hne Hdb' Hr').
      cbv zeta. rewrite (check_inside _ _ _ _ _ Hst') by (cbn; lia).
      cbn [count]. destruct (Z.leb_spec (rate_limit r') (1 + Z.of_nat (length calls)));
        [|lia].
      cbn [fst snd]. rewrite <- Hdb'. now rewrite globals_eta.
    + rewrite Hdb'. cbn. rewrite Hr'. cbn. f_equal. f_equal. lia.
Qed.

(** The set-up of the service's usage test: limit 2, two inspections by
    ["test-key"], then its request of the usage endpoint in the same
    minute. *)
Lemma usage_request_over_quota_witness :
  let settings :=
    {| api_rate_limit_per_minute := 2;
       default_api_keys := [("test-key", "Test User"); ("rate-key", "Rate User")];
       database_path := "data/app.db" |} in
  let g := (main.initialise_database settings "2024-01-01 00:00:00"
              {| the_database := None;
                 rate_limiter := {| window_seconds := 60; _state := ∅ |} |}).2 in
  let g' := main.after_inspections settings "test-key"
              [("30101012100013", 0, "2024-01-01 00:00:01");
               ("30101012100013", 1, "2024-01-01 00:00:02")] g in
  main.get_usage settings (Some "test-key") 2 "2024-01-01 00:00:03" g'
  = (main.HTTPError 429 "Rate limit exceeded", g')
  /\ database.get_usage "test-key" (the_database g') = Done (Some (0 + 2)).
Proof.
  cbv zeta.
  apply (usage_request_over_quota _ "test-key" _
           (foldl (upsert "2024-01-01 00:00:00" 2) ∅
              [("test-key", "Test User"); ("rate-key", "Rate User")])
           {| owner := "Test User"; rate_limit := 2; total_requests := 0;
              created_at := "2024-01-01 00:00:00";
              updated_at := "2024-01-01 00:00:00" |}
           "30101012100013" 0 "2024-01-01 00:00:01"
           [("30101012100013", 1, "2024-01-01 00:00:02")]
           2 "2024-01-01 00:00:03").
  - discriminate.
  - reflexivity.
  - vm_compute. reflexivity.
  - cbn. lia.
  - cbn. lia.
  - cbn. lia.
  - reflexivity.
  - reflexivity.
  - repeat (apply Forall_cons; split); try (apply Forall_nil; exact I). cbn. lia.
  - cbn. lia.
Defined.

(** A request is counted before its payload is looked at: an inspection
    that the limiter lets through and whose payload the decoder refuses is
    answered with the 400 body and the decoder's message, and still adds 1
    to the usage of the key, an SQLite INTEGER. *)
Theorem refused_payload_is_counted settings key payload message now ts g rows r :
  key <> EmptyString ->
  the_database g = Some rows ->
  rows !! key = Some r ->
  sqlite_integer (total_requests r) = true ->
  (check key (rate_limit r) now (rate_limiter g)).1 = Allowed ->
  national_id.parse_national_id payload
  = national_id.NationalIDValidationError message ->
  (main.inspect_national_id settings (Some key) payload now ts g).1
  = main.ErrorResponse payload message
  /\ database.get_usage key
       (the_database (main.inspect_national_id settings (Some key) payload now ts g).2)
     = Done (Some (total_requests r + 1)).
Proof.
  intros Hne Hdb Hr Hrange Hcheck Hparse.
  rewrite (inspect_allowed _ _ _ _ _ _ rows r Hne Hdb Hr Hcheck), Hparse.
  split; [reflexivity|]. cbn.
  rewrite lookup_alter, decide_True, Hr by reflexivity. cbn.
  now rewrite (sqlite_add_one_integer _ Hrange).
Qed.

(** The invalid ID of the service's test, sent by a key on its first
    request. *)
Lemma refused_payload_is_counted_witness :
  let settings := {| api_rate_limit_per_minute := 2; default_api_keys := [];
                     database_path := "data/app.db" |} in
  let r := {| owner := "Test User"; rate_limit := 2; total_requests := 0;
              created_at := "2024-01-01 00:00:00";
              updated_at := "2024-01-01 00:00:00" |} in
  let g := {| the_database := Some {[ "test-key" := r ]};
              rate_limiter := {| window_seconds := 60; _state := ∅ |} |} in
  (main.inspect_national_id settings (Some "test-key") "10101012100013" 0
     "2024-01-01 00:00:01" g).1
  = main.ErrorResponse "10101012100013" "Unsupported century digit in National ID"
  /\ database.get_usage "test-key"
       (the_database (main.inspect_national_id settings (Some "test-key")
                        "10101012100013" 0 "2024-01-01 00:00:01" g).2)
     = Done (Some (0 + 1)).
Proof.
  cbv zeta.
  apply (refused_payload_is_counted _ "test-key" "10101012100013"
           "Unsupported century digit in National ID" 0 "2024-01-01 00:00:01" _
           {[ "test-key" := {| owner := "Test User"; rate_limit := 2;
                               total_requests := 0;
                               created_at := "2024-01-01 00:00:00";
                               updated_at := "2024-01-01 00:00:00" |} ]}
           {| owner := "Test User"; rate_limit := 2; total_requests := 0;
              created_at := "2024-01-01 00:00:00";
              updated_at := "2024-01-01 00:00:00" |}).
  - discriminate.
  - reflexivity.
  - vm_compute. reflexivity.
  - reflexivity.
  - reflexivity.
  - vm_compute. reflexivity.
Defined.

(** What the usage endpoint reports is what the store holds: a 200 names
    the presented key with the owner and the count of its row, and the
    request itself has not changed the store. *)
Theorem usage_response_reports_the_row settings api_key now ts g k o n g' :
  main.get_usage settings api_key now ts g = (main.UsageResponse k o n, g') ->
  api_key = Some k
  /\ the_database g' = the_database g
  /\ exists r, row k (the_database g) = Some r
               /\ o = owner r /\ n = total_requests r.
Proof.
  unfold main.get_usage, get_current_api_key.
  destruct api_key as [[|c s]|]; try discriminate.
  destruct (the_database g) as [rows|] eqn:Hdb; cbn [get_api_key no_such_table];
    [|discriminate].
  destruct (rows !! String c s) as [r|] eqn:Hr; [|discriminate].
  cbn [rec_rate_limit].
  destruct (check _ _ _ _) as [[] limiter']; [|discriminate].
  cbn [database.get_usage the_database rec_key rec_owner]. rewrite Hr. cbn.
  intros [= <- <- <- <-]. split; [reflexivity|]. split; [reflexivity|].
  exists r. repeat split. exact Hr.
Qed.

Lemma usage_response_reports_the_row_witness :
  let settings := {| api_rate_limit_per_minute := 2; default_api_keys := [];
                     database_path := "data/app.db" |} in
  let r := {| owner := "Test User"; rate_limit := 2; total_requests := 7;
              created_at := "2024-01-01 00:00:00";
              updated_at := "2024-01-05 00:00:00" |} in
  let g := {| the_database := Some {[ "test-key" := r ]};
              rate_limiter := {| window_seconds := 60; _state := ∅ |} |} in
  (main.get_usage settings (Some "test-key") 0 "2024-01-06 00:00:00" g).1
  = main.UsageResponse "test-key" "Test User" 7
  /\ Some "test-key" = Some "test-key"
  /\ the_database (main.get_usage settings (Some "test-key") 0
                     "2024-01-06 00:00:00" g).2 = the_database g
  /\ exists r', row "test-key" (the_database g) = Some r'
                /\ "Test User" = owner r' /\ 7 = total_requests r'.
Proof.
  cbv zeta. split; [vm_compute; reflexivity|].
  apply (usage_response_reports_the_row
           {| api_rate_limit_per_minute := 2; default_api_keys := [];
              database_path := "data/app.db" |}
           (Some "test-key") 0 "2024-01-06 00:00:00").
  vm_compute. reflexivity.
Defined.

(** When the configured limit is an SQLite INTEGER, 0 included, the
    start-up hook returns, and after it every key of the configuration that
    is not the empty string is served on its first request, whatever the
    store held before: the response is the one of the decoder. *)
Theorem startup_serves_configured_keys settings ts0 g key o payload now ts :
  sqlite_integer (api_rate_limit_per_minute settings) = true ->
  key <> EmptyString ->
  last (owners_for key (default_api_keys settings)) = Some o ->
  _state (rate_limiter g) !! key = None ->
  (main.initialise_database settings ts0 g).1 = Returned
  /\ (main.inspect_national_id settings (Some key) payload now ts
        (main.initialise_database settings ts0 g).2).1
     = decoded payload.
Proof.
  intros Hlimit Hne Ho Hst. unfold main.initialise_database. cbn [fst snd].
  assert (Hret : (initialise (default_api_keys settings)
                    (api_rate_limit_per_minute settings) ts0 (the_database g)).1
                 = Returned)
    by (rewrite initialise_spec, Hlimit; reflexivity).
  split; [exact Hret|].
  pose proof (row_initialise (default_api_keys settings)
                (api_rate_limit_per_minute settings) ts0 (the_database g) key) as Hrow.
  rewrite Hret, Ho in Hrow.
  destruct (initialise_creates_table (default_api_keys settings)
              (api_rate_limit_per_minute settings) ts0 (the_database g))
    as [rows Hrows].
  rewrite Hrows in Hrow. cbn [row] in Hrow.
  match type of Hrow with _ = Some ?x => set (r0 := x) in Hrow end.
  rewrite (inspect_allowed _ _ _ _ _ _ rows r0 Hne); [reflexivity| |exact Hrow|].
  - cbn. exact Hrows.
  - cbn [rate_limiter].
    rewrite check_opens; [reflexivity|]. unfold opens_window. now rewrite Hst.
Qed.

(** A limit of 0 in the configuration, an empty store, the first request of
    ["test-key"]. *)
Lemma startup_serves_configured_keys_witness :
  let settings :=
    {| api_rate_limit_per_minute := 0;
       default_api_keys := [("test-key", "Test User"); ("rate-key", "Rate User")];
       database_path := "data/app.db" |} in
  let g := {| the_database := None;
              rate_limiter := {| window_seconds := 60; _state := ∅ |} |} in
  (main.initialise_database settings "2024-01-01 00:00:00" g).1 = Returned
  /\ (main.inspect_national_id settings (Some "test-key") "30101012100013" 0
        "2024-01-01 00:00:01"
        (main.initialise_database settings "2024-01-01 00:00:00" g).2).1
     = decoded "30101012100013".
Proof.
  cbv zeta.
  apply (startup_serves_configured_keys _ "2024-01-01 00:00:00" _ "test-key"
           "Test User");
    [reflexivity|discriminate|reflexivity|reflexivity].
Defined.

End endpoints.

(* ===================================================================== *)
(** ** The configuration                                                  *)
(* ===================================================================== *)

Section configuration.
Import config.
Import national_id (strip, lstrip, rstrip, isspace, whitespace, all_chars).

(** A character other than [sep]. *)
Local Abbreviation is_not sep := (λ c : ascii, negb (Ascii.eqb c sep)).

Lemma all_chars_lstrip p (s : string) :
  all_chars p s = true -> all_chars p (lstrip s) = true.
Proof.
  induction s as [|c s IH]; [reflexivity|]. cbn [lstrip].
  destruct (isspace c); [|tauto]. cbn [all_chars].
  intros [_ Hs]%andb_true_iff. now apply IH.
Qed.

Lemma all_chars_rstrip p (s : string) :
  all_chars p s = true -> all_chars p (rstrip s) = true.
Proof.
  induction s as [|c s IH]; [reflexivity|]. cbn [all_chars rstrip].
  intros [Hc Hs]%andb_true_iff. specialize (IH Hs).
  destruct (rstrip s) as [|c' s'].
  - destruct (isspace c); [reflexivity|]. cbn [all_chars]. now rewrite Hc.
  - cbn [all_chars] in *. now rewrite Hc, IH.
Qed.

Lemma all_chars_strip p (s : string) :
  all_chars p s = true -> all_chars p (strip s) = true.
Proof. intros H. unfold strip. now apply all_chars_rstrip, all_chars_lstrip. Qed.

Lemma strip_whitespace (s : string) : whitespace s = true -> strip s = EmptyString.
Proof. intros H. unfold strip. now rewrite (lstrip_whitespace s H). Qed.

(** The pieces of a split keep a property all characters had, and hold no
    separator. *)
Lemma split_all_chars p sep (s : string) :
  all_chars p s = true -> Forall (λ piece, all_chars p piece = true) (split sep s).
Proof.
  induction s as [|c s IH]; cbn [split all_chars].
  - repeat constructor.
  - intros [Hc Hs]%andb_true_iff. specialize (IH Hs).
    destruct (Ascii.eqb c sep).
    + constructor; [reflexivity|exact IH].
    + destruct (split sep s) as [|piece pieces].
      * repeat constructor. cbn [all_chars]. now rewrite Hc.
      * apply Forall_cons in IH as [Hpiece Hpieces].
        constructor; [|exact Hpieces]. cbn [all_chars]. now rewrite Hc, Hpiece.
Qed.

Lemma split_no_separator sep (s : string) :
  Forall (λ piece, all_chars (is_not sep) piece = true) (split sep s).
Proof.
  induction s as [|c s IH]; cbn [split].
  - repeat constructor.
  - destruct (Ascii.eqb c sep) eqn:Hc.
    + constructor; [reflexivity|exact IH].
    + destruct (split sep s) as [|piece pieces].
      * repeat constructor. cbn [all_chars]. now rewrite Hc.
      * apply Forall_cons in IH as [Hpiece Hpieces].
        constructor; [|exact Hpieces]. cbn [all_chars]. now rewrite Hc, Hpiece.
Qed.

Lemma split_once_None sep (s : string) :
  split_once sep s = None -> all_chars (is_not sep) s = true.
Proof.
  induction s as [|c s IH]; [reflexivity|]. cbn [split_once all_chars].
  destruct (Ascii.eqb c sep); [discriminate|].
  destruct (split_once sep s) as [[a b]|]; [discriminate|].
  intros _. now rewrite IH.
Qed.

Lemma split_once_Some sep (s : string) : forall before after,
  split_once sep s = Some (before, after) ->
  all_chars (is_not sep) before = true
  /\ forall p, all_chars p s = true ->
               all_chars p before = true /\ all_chars p after = true.
Proof.
  induction s as [|c s IH]; intros before after; [discriminate|].
  cbn [split_once]. destruct (Ascii.eqb c sep) eqn:Hc.
  - intros [= <- <-]. split; [reflexivity|].
    intros p. cbn [all_chars]. intros [_ Hs]%andb_true_iff. now split.
  - destruct (split_once sep s) as [[a b]|]; [|discriminate].
    intros [= <- <-]. destruct (IH a b eq_refl) as [Ha Hp].
    split; [cbn [all_chars]; now rewrite Hc, Ha|].
    intros p. cbn [all_chars]. intros [Hpc Hs]%andb_true_iff.
    destruct (Hp p Hs) as [Hpa Hpb]. now rewrite Hpc, Hpa, Hpb.
Qed.

(** The loop body on an item without a comma: the key it yields has no
    comma and no colon, the owner no comma and at least one character. *)
Lemma parse_item_Some item key owner :
  all_chars (is_not ",") item = true ->
  parse_item item = Some (key, owner) ->
  all_chars (is_not ",") key = true
  /\ all_chars (is_not ":") key = true
  /\ all_chars (is_not ",") owner = true
  /\ owner <> EmptyString.
Proof.
  intros Hitem. unfold parse_item.
  pose proof (all_chars_strip _ _ Hitem) as Hs.
  destruct (strip item) as [|c s] eqn:Hstrip; [discriminate|].
  destruct (split_once ":" (String c s)) as [[before after]|] eqn:Hsplit.
  - destruct (split_once_Some _ _ _ _ Hsplit) as [Hcolon Hp].
    destruct (Hp _ Hs) as [Hb Ha].
    intros [= <- <-]. split; [now apply all_chars_strip|].
    split; [now apply all_chars_strip|].
    pose proof (all_chars_strip _ _ Ha) as Ho.
    destruct (strip after); [split; [reflexivity|discriminate]|].
    split; [exact Ho|discriminate].
  - intros [= <- <-]. split; [exact Hs|].
    split; [now apply split_once_None|]. split; [reflexivity|discriminate].
Qed.

(** The list of default keys is never empty, whatever the environment
    holds, and no owner in it is the empty string. *)
Theorem parse_default_api_keys_nonempty value :
  _parse_default_api_keys value <> []
  /\ forall key owner,
       (key, owner) ∈ _parse_default_api_keys value -> owner <> EmptyString.
Proof.
  assert (Hdemo : forall key owner,
             (key, owner) ∈ demo_keys -> owner <> EmptyString).
  { intros key owner [= _ ->]%list_elem_of_singleton. discriminate. }
  unfold _parse_default_api_keys.
  destruct value as [[|c s]|]; try (split; [discriminate|exact Hdemo]).
  destruct (omap parse_item (split "," (String c s))) as [|pair result] eqn:Hres;
    [split; [discriminate|exact Hdemo]|].
  split; [discriminate|]. intros key owner Hin. rewrite <- Hres in Hin.
  apply list_elem_of_omap in Hin as (item & Hitem & Hparse).
  pose proof (split_no_separator "," (String c s)) as Hsplit.
  rewrite Forall_forall in Hsplit.
  now destruct (parse_item_Some item key owner (Hsplit item Hitem) Hparse)
    as (_ & _ & _ & ?).
Qed.

(** No key of the list holds a comma or a colon, and no owner a comma: the
    two separators of the format cannot be part of a key. *)
Theorem parse_default_api_keys_separators value key owner :
  (key, owner) ∈ _parse_default_api_keys value ->
  all_chars (is_not ",") key = true
  /\ all_chars (is_not ":") key = true
  /\ all_chars (is_not ",") owner = true.
Proof.
  assert (Hdemo : (key, owner) ∈ demo_keys ->
                  all_chars (is_not ",") key = true
                  /\ all_chars (is_not ":") key = true
                  /\ all_chars (is_not ",") owner = true).
  { intros [= -> ->]%list_elem_of_singleton. repeat split; reflexivity. }
  unfold _parse_default_api_keys.
  destruct value as [[|c s]|]; try exact Hdemo.
  destruct (omap parse_item (split "," (String c s))) as [|pair result] eqn:Hres;
    [exact Hdemo|].
  intros Hin. rewrite <- Hres in Hin.
  apply list_elem_of_omap in Hin as (item & Hitem & Hparse).
  pose proof (split_no_separator "," (String c s)) as Hsplit.
  rewrite Forall_forall in Hsplit.
  destruct (parse_item_Some item key owner (Hsplit item Hitem) Hparse)
    as (? & ? & ? & _).
  auto.
Qed.

(** The value of the service's tests, with blanks added and an owner that
    holds a colon. *)
Lemma parse_default_api_keys_separators_witness :
  _parse_default_api_keys (Some " test-key : Test User , rate-key:Rate:User,")
  = [("test-key", "Test User"); ("rate-key", "Rate:User")]
  /\ all_chars (is_not ",") "rate-key" = true
  /\ all_chars (is_not ":") "rate-key" = true
  /\ all_chars (is_not ",") "Rate:User" = true.
Proof.
  split; [vm_compute; reflexivity|].
  apply (parse_default_api_keys_separators
           (Some " test-key : Test User , rate-key:Rate:User,")).
  vm_compute. apply list_elem_of_further, list_elem_of_here.
Defined.

(** A value made of blanks and commas only lists nothing, and the demo key
    is used, as for a variable that is unset or empty. *)
Theorem parse_default_api_keys_blank (value : string) :
  all_chars (λ c, isspace c || Ascii.eqb c ",") value = true ->
  _parse_default_api_keys (Some value) = demo_keys.
Proof.
  intros H. unfold _parse_default_api_keys.
  destruct value as [|c s]; [reflexivity|].
  assert (Hnone : omap parse_item (split "," (String c s)) = []).
  { pose proof (split_all_chars _ "," _ H) as Hp.
    pose proof (split_no_separator "," (String c s)) as Hn.
    induction (split "," (String c s)) as [|piece pieces IH]; [reflexivity|].
    apply Forall_cons in Hp as [Hp1 Hp], Hn as [Hn1 Hn].
    cbn [omap list_omap]. rewrite (IH Hp Hn).
    assert (Hw : whitespace piece = true).
    { clear -Hp1 Hn1. unfold whitespace.
      induction piece as [|a piece IHp]; [reflexivity|]. cbn [all_chars] in *.
      apply andb_true_iff in Hp1 as [Ha Hp1], Hn1 as [Hna Hn1].
      rewrite (IHp Hp1 Hn1).
      destruct (Ascii.eqb a ","); [discriminate Hna|].
      rewrite orb_false_r in Ha. now rewrite Ha. }
    unfold parse_item. now rewrite (strip_whitespace _ Hw). }
  now rewrite Hnone.
Qed.

Lemma parse_default_api_keys_blank_witness :
  _parse_default_api_keys (Some " , ,,  ") = [("demo-key-123", "Demo account")].
Proof.
  apply (parse_default_api_keys_blank " , ,,  "). reflexivity.
Defined.

End configuration.
